(** * Email dispatch and tracking pipeline: a shallow embedding

    The development follows the backend of the email connector:
    - [services/emailService.ts]  (class [EmailService]),
    - [utils/trackingUtils.ts]    ([checkTrackingCooldown]),
    - [routes/email.ts]           (the [POST /send] handler),
    - [routes/tracking.ts]        (the pixel and click handlers),
    - [middleware/validation.ts]  ([validateClickTracking]),
    - [models/Email.ts], [models/EmailTracking.ts]
                                  (the validators of the two schemas),
    - [config/env.ts]             ([config]).

    JavaScript strings are represented by [string]: the sequence of the
    bytes of their UTF-8 encoding (a well-formed JavaScript string is
    determined by it).  Dates are their [getTime()] value, a number of
    milliseconds in [Z]. *)

From Stdlib Require Import String Ascii List ZArith NArith Bool Lia.
From Stdlib Require Import DecimalString.
From Stdlib Require Import Permutation Sorted.
Import ListNotations.

Local Open Scope list_scope.
Local Open Scope string_scope.

(** ** JavaScript string primitives used by the service *)

Module JS.

(** The double quote, a carriage return and a line feed, as strings. *)
Definition DQ : string := String (ascii_of_nat 34) EmptyString.
Definition CR : string := String (ascii_of_nat 13) EmptyString.
Definition LF : string := String (ascii_of_nat 10) EmptyString.
Definition CRLF : string := CR ++ LF.

(** A string is falsy exactly when it is empty. *)
Definition truthy (s : string) : bool :=
  match s with EmptyString => false | String _ _ => true end.

(** [a || b] on strings. *)
Definition or_else (a b : string) : string :=
  if truthy a then a else b.

(** [s.includes(sub)]. *)
Fixpoint includes (s sub : string) : bool :=
  prefix sub s ||
  match s with
  | EmptyString => false
  | String _ s' => includes s' sub
  end.

(** Decimal rendering of an integer, as string interpolation gives it. *)
Definition string_of_Z (z : Z) : string :=
  NilZero.string_of_int (Z.to_int z).

(** [codeOf c] is the value of the byte [c]. *)
Definition codeOf (c : ascii) : N := N_of_ascii c.

Definition between (lo hi : N) (c : ascii) : bool :=
  (lo <=? codeOf c)%N && (codeOf c <=? hi)%N.

Definition isDigit (c : ascii) : bool := between 48 57 c.
Definition isUpper (c : ascii) : bool := between 65 90 c.
Definition isLower (c : ascii) : bool := between 97 122 c.

(** The characters [encodeURIComponent] leaves alone:
    letters, digits and  - _ . ! ~ * ' ( )  *)
Definition isUnreserved (c : ascii) : bool :=
  isDigit c || isUpper c || isLower c ||
  existsb (N.eqb (codeOf c)) [45; 95; 46; 33; 126; 42; 39; 40; 41]%N.

Definition hexDigit (n : N) : ascii :=
  if (n <? 10)%N then ascii_of_N (48 + n) else ascii_of_N (55 + n).

Definition hexValue (c : ascii) : option N :=
  if isDigit c then Some (codeOf c - 48)%N
  else if between 65 70 c then Some (codeOf c - 55)%N
  else if between 97 102 c then Some (codeOf c - 87)%N
  else None.

Definition percent : ascii := ascii_of_nat 37.

Definition encodeByte (c : ascii) : string :=
  if isUnreserved c then String c EmptyString
  else String percent
         (String (hexDigit (codeOf c / 16))
            (String (hexDigit (codeOf c mod 16)) EmptyString)).

(** [encodeURIComponent(s)]: every byte of the UTF-8 encoding that is not
    an unreserved character becomes a percent triple with upper-case
    hexadecimal digits.  (On a string that is not well-formed UTF-16 the
    built-in throws; such strings have no UTF-8 encoding and are outside
    the representation.) *)
Fixpoint encodeURIComponent (s : string) : string :=
  match s with
  | EmptyString => EmptyString
  | String c s' => encodeByte c ++ encodeURIComponent s'
  end.

(** [decodeURIComponent(s)]: [None] stands for the thrown [URIError] on a
    percent sign that is not followed by two hexadecimal digits.  The
    built-in also rejects percent triples that do not spell well-formed
    UTF-8; that check is not modelled, it never fires on the output of
    [encodeURIComponent]. *)
Fixpoint decodeURIComponent (s : string) : option string :=
  match s with
  | EmptyString => Some EmptyString
  | String c s' =>
      if Ascii.eqb c percent then
        match s' with
        | String h (String l rest) =>
            match hexValue h, hexValue l with
            | Some a, Some b =>
                option_map (String (ascii_of_N (16 * a + b)))
                           (decodeURIComponent rest)
            | _, _ => None
            end
        | _ => None
        end
      else option_map (String c) (decodeURIComponent s')
  end.

End JS.

Import JS.

Fixpoint allChars (p : ascii -> bool) (s : string) : bool :=
  match s with
  | EmptyString => true
  | String c s' => p c && allChars p s'
  end.

(** ** Configuration ([config/env.ts]) *)

(** The two settings the pipeline reads.  [TRACKING_COOLDOWN_SECONDS] is
    parsed from the environment and defaults to 10. *)
Record EnvironmentConfig := {
  APP_URL : string;
  TRACKING_COOLDOWN_SECONDS : Z
}.

(** ** Regular-expression helpers of the content rewriter *)

Module Regex.

Definition lower (c : ascii) : ascii :=
  if isUpper c then ascii_of_N (codeOf c + 32) else c.

(** [stripPrefixCI p s]: the rest of [s] after the literal [p], compared
    without regard to the case of ASCII letters (flag [i]). *)
Fixpoint stripPrefixCI (p s : string) : option string :=
  match p, s with
  | EmptyString, _ => Some s
  | String a p', String b s' =>
      if Ascii.eqb (lower a) (lower b) then stripPrefixCI p' s' else None
  | String _ _, EmptyString => None
  end.

(** White space of one byte: TAB, LF, VT, FF, CR, SP. *)
Definition asciiSpace (c : ascii) : bool :=
  between 9 13 c || (codeOf c =? 32)%N.

(** White space of the class [\s] outside ASCII, by its UTF-8 bytes:
    U+00A0, U+1680, U+2000..U+200A, U+2028, U+2029, U+202F, U+205F,
    U+3000 and U+FEFF. *)
Definition unicodeSpaceAt (s : string) : bool :=
  match s with
  | String a (String b rest) =>
      let x := codeOf a in
      let y := codeOf b in
      ((x =? 194) && (y =? 160))%N ||
      match rest with
      | String c _ =>
          let z := codeOf c in
          ((x =? 225) && (y =? 154) && (z =? 128))%N ||
          ((x =? 226) && (y =? 128) &&
           (((128 <=? z) && (z <=? 138)) || (z =? 168) || (z =? 169)
            || (z =? 175)))%N ||
          ((x =? 226) && (y =? 129) && (z =? 159))%N ||
          ((x =? 227) && (y =? 128) && (z =? 128))%N ||
          ((x =? 239) && (y =? 187) && (z =? 191))%N
      | EmptyString => false
      end
  | _ => false
  end.

(** [delimAt s]: the string [s] begins with a character that the class
    of the URL expression excludes, that is with white space ([\s]), an
    angle bracket or a double quote. *)
Definition delimAt (s : string) : bool :=
  match s with
  | EmptyString => false
  | String c _ =>
      asciiSpace c || (codeOf c =? 60)%N || (codeOf c =? 62)%N
      || (codeOf c =? 34)%N || unicodeSpaceAt s
  end.

(** The rest of [s] after [https?:\/\/], if [s] begins with it. *)
Definition schemeRest (s : string) : option string :=
  match stripPrefixCI "http" s with
  | None => None
  | Some r =>
      match r with
      | String c r' =>
          if Ascii.eqb (lower c) "s"%char then
            match stripPrefixCI "://" r' with
            | Some t => Some t
            | None => stripPrefixCI "://" r
            end
          else stripPrefixCI "://" r
      | EmptyString => None
      end
  end.

(** [urlStartsAt s]: the URL expression (the scheme [https?:\/\/]
    followed by one or more characters that are not delimiters, flag [i])
    matches at the very beginning of [s]. *)
Definition urlStartsAt (s : string) : bool :=
  match schemeRest s with
  | Some t => truthy t && negb (delimAt t)
  | None => false
  end.

(** [content.replace(urlRegex, f)] with the global URL expression, as a
    left-to-right scan.  [cur] holds the text of the match being read: a match extends
    over the longest run of characters of the class, and the characters of
    the scheme belong to the class themselves, so once a match has begun
    every character is appended until a delimiter or the end. *)
Fixpoint scan (f : string -> string) (s : string) (cur : option string)
  : string :=
  match s with
  | EmptyString =>
      match cur with Some url => f url | None => EmptyString end
  | String c s' =>
      match cur with
      | Some url =>
          if delimAt s then f url ++ String c (scan f s' None)
          else scan f s' (Some (url ++ String c EmptyString))
      | None =>
          if urlStartsAt s then scan f s' (Some (String c EmptyString))
          else String c (scan f s' None)
      end
  end.

Definition replaceUrls (f : string -> string) (content : string) : string :=
  scan f content None.

End Regex.

(** ** Tracking URLs and content rewriting ([services/emailService.ts]) *)

Section Rewriter.

Variable config : EnvironmentConfig.

(** The pixel URL built in [processEmailWithRecipientTracking]:
    [`${config.APP_URL}/api/tracking/pixel/${trackingId}/${encodeURIComponent(recipientEmail)}`]. *)
Definition trackingPixelUrl (trackingId recipientEmail : string) : string :=
  APP_URL config ++ "/api/tracking/pixel/" ++ trackingId ++ "/"
    ++ encodeURIComponent recipientEmail.

(** The click URL built in [addClickTrackingForRecipient]:
    [`${config.APP_URL}/api/tracking/click/${trackingId}/${encodeURIComponent(url)}/${encodeURIComponent(recipientEmail)}`]. *)
Definition trackingUrl (trackingId recipientEmail url : string) : string :=
  APP_URL config ++ "/api/tracking/click/" ++ trackingId ++ "/"
    ++ encodeURIComponent url ++ "/" ++ encodeURIComponent recipientEmail.

(** [addClickTrackingForRecipient(content, trackingId, recipientEmail, isHtml)];
    both branches on [isHtml] return the tracking URL. *)
Definition addClickTrackingForRecipient
    (content trackingId recipientEmail : string) (isHtml : bool) : string :=
  Regex.replaceUrls
    (fun url =>
       if isHtml then trackingUrl trackingId recipientEmail url
       else trackingUrl trackingId recipientEmail url)
    content.

(** The pieces of the HTML template of
    [processEmailWithRecipientTracking], with its line breaks and
    indentation. *)
Definition htmlHead : string :=
  LF ++ "        <html>" ++ LF ++ "          <body>" ++ LF
     ++ "            <pre style=" ++ DQ
     ++ "font-family: inherit; white-space: pre-wrap;" ++ DQ ++ ">".

Definition htmlMiddle : string :=
  "</pre>" ++ LF ++ "            <img src=" ++ DQ.

Definition htmlTail : string :=
  DQ ++ " width=" ++ DQ ++ "1" ++ DQ ++ " height=" ++ DQ ++ "1" ++ DQ
     ++ " style=" ++ DQ ++ "display:none;" ++ DQ ++ " alt=" ++ DQ ++ DQ
     ++ " />" ++ LF ++ "          </body>" ++ LF ++ "        </html>" ++ LF
     ++ "      ".

Record ProcessedEmail := {
  processedBody : string;
  processedHtmlBody : string
}.

(** [processEmailWithRecipientTracking(emailData, trackingId, recipientEmail)]
    reads only [emailData.body]. *)
Definition processEmailWithRecipientTracking
    (emailBody trackingId recipientEmail : string) : ProcessedEmail :=
  let processedBody :=
    addClickTrackingForRecipient emailBody trackingId recipientEmail false in
  let trackingPixelUrl := trackingPixelUrl trackingId recipientEmail in
  {| processedBody := processedBody;
     processedHtmlBody :=
       htmlHead ++ processedBody ++ htmlMiddle ++ trackingPixelUrl
         ++ htmlTail |}.

End Rewriter.

(** ** Route parameters, as the framework hands them to the handlers *)

Module Route.

Definition slash : ascii := "/"%char.

(** The segments of a path between its slashes. *)
Fixpoint splitOn (sep : ascii) (s : string) : list string :=
  match s with
  | EmptyString => [EmptyString]
  | String c s' =>
      if Ascii.eqb c sep then EmptyString :: splitOn sep s'
      else match splitOn sep s' with
           | h :: t => String c h :: t
           | [] => [String c EmptyString]
           end
  end.

(** The path of a request URL ends where its query or fragment begins. *)
Fixpoint cutQuery (s : string) : string :=
  match s with
  | EmptyString => EmptyString
  | String c s' =>
      if Ascii.eqb c "?"%char || Ascii.eqb c "#"%char then EmptyString
      else String c (cutQuery s')
  end.

Fixpoint stripPrefix (p s : string) : option string :=
  match p, s with
  | EmptyString, _ => Some s
  | String a p', String b s' =>
      if Ascii.eqb a b then stripPrefix p' s' else None
  | String _ _, EmptyString => None
  end.

(** Literal route segments are compared without regard to case. *)
Definition eqCI (lit seg : string) : bool :=
  match Regex.stripPrefixCI lit seg with
  | Some EmptyString => true
  | _ => false
  end.

(** One trailing slash is tolerated. *)
Fixpoint dropTrailingEmpty (l : list string) : list string :=
  match l with
  | [] => []
  | [x; EmptyString] => [x]
  | x :: l' => x :: dropTrailingEmpty l'
  end.

Inductive RouteMatch (A : Type) : Type :=
| NoMatch                (* another route, or 404 *)
| MalformedTrackingUrl   (* a parameter that cannot be decoded: 400 *)
| Params (a : A).

Arguments NoMatch {A}.
Arguments MalformedTrackingUrl {A}.
Arguments Params {A} a.

(** A parameter is a non-empty segment, percent-decoded. *)
Definition decodeParam (seg : string) : option string :=
  if truthy seg then decodeURIComponent seg else None.

(** The route [GET /pixel/:trackingId/:recipient] of the tracking router,
    which is mounted at [/api] and there at [/tracking]. *)
Definition parsePixelRequest (path : string)
  : RouteMatch (string * string) :=
  match dropTrailingEmpty (splitOn slash path) with
  | [root; api; tracking; pixel; t; r] =>
      if negb (truthy root) && eqCI "api" api && eqCI "tracking" tracking
         && eqCI "pixel" pixel && truthy t && truthy r
      then match decodeParam t, decodeParam r with
           | Some trackingId, Some recipient => Params (trackingId, recipient)
           | _, _ => MalformedTrackingUrl
           end
      else NoMatch
  | _ => NoMatch
  end.

(** The route [GET /click/:trackingId/:url/:recipient]. *)
Definition parseClickRequest (path : string)
  : RouteMatch (string * string * string) :=
  match dropTrailingEmpty (splitOn slash path) with
  | [root; api; tracking; click; t; u; r] =>
      if negb (truthy root) && eqCI "api" api && eqCI "tracking" tracking
         && eqCI "click" click && truthy t && truthy u && truthy r
      then match decodeParam t, decodeParam u, decodeParam r with
           | Some trackingId, Some url, Some recipient =>
               Params (trackingId, url, recipient)
           | _, _, _ => MalformedTrackingUrl
           end
      else NoMatch
  | _ => NoMatch
  end.

(** The path a client requests when it follows a URL built on [appUrl]. *)
Definition requestPath (appUrl url : string) : option string :=
  option_map cutQuery (stripPrefix appUrl url).

End Route.

Import Route.

(** ** Data model ([types/index.ts], [models/]) *)

Inductive OAuthProvider := google | microsoft.

Definition OAuthProvider_eqb (a b : OAuthProvider) : bool :=
  match a, b with
  | google, google | microsoft, microsoft => true
  | _, _ => false
  end.

Record IOAuthConnection := {
  conn_provider : OAuthProvider;
  conn_email : string;
  accessToken : string;
  refreshToken : option string
}.

Record IUser := {
  user_id : string;
  connectedProviders : list IOAuthConnection
}.

Inductive MailProvider := gmail | outlook.

Record SendEmailRequest := {
  to : list string;
  cc : option (list string);
  bcc : option (list string);
  subject : string;
  body : string;
  htmlBody : option string;
  provider : MailProvider
}.

Inductive EmailStatus := sent | failed | draft.

Record Email := {
  email_id : string;
  email_userId : string;
  email_messageId : option string;
  email_subject : string;
  email_to : list string;
  email_cc : list string;
  email_bcc : list string;
  email_body : string;
  email_htmlBody : option string;
  sendTimestamp : Z;
  status : EmailStatus;
  email_provider : MailProvider;
  email_trackingId : string;
  error : option string
}.

Inductive EventType := open | click | reply | forward.

Record EmailTracking := {
  ev_trackingId : string;
  ev_emailId : string;
  eventType : EventType;
  ipAddress : option string;
  userAgent : option string;
  clickedUrl : option string;
  recipientEmail : option string;
  meta_timestamp : Z;
  meta_referer : option string;
  meta_acceptLanguage : option string
}.

(** A thrown JavaScript value: its [message], which an [Error] always
    has and another thrown object may lack, and the [code] and
    [response.status] a provider client attaches to it. *)
Record JsError := {
  message : option string;
  code : option Z;
  response_status : option Z
}.

(** [new Error(msg)] *)
Definition Error (msg : string) : JsError :=
  {| message := Some msg; code := None; response_status := None |}.

(** What reading a property of [undefined] throws. *)
Definition TypeError (property : string) : JsError :=
  Error ("Cannot read properties of undefined (reading '" ++ property ++ "')").

(** The structured message of [createOutlookMessage]. *)
Inductive ContentType := HTML | Text.

Record OutlookMessage := {
  om_subject : string;
  om_contentType : ContentType;
  om_content : string;
  toRecipients : list string;
  ccRecipients : option (list string);
  bccRecipients : option (list string)
}.

(** What reaches a mail provider: a raw message for the Gmail API, or a
    structured one for the Microsoft send-mail API. *)
Inductive Submission :=
| GmailSubmission (raw : string)
| OutlookSubmission (msg : OutlookMessage).

(** ** The world around the service

    [now] is the reading of the clock ([Date.now()], [new Date()]),
    [random] the text [Math.random().toString(36).substr(2, 9)] yields,
    [objectIds] the identifiers [new ObjectId()] mints.  [gmailApi n raw]
    is what [gmail.users.messages.send] answers to the payload [raw] when
    [n] submissions were made before: a message id or a thrown error.
    [urlParses u] tells whether the platform's constructor [new URL(u)]
    accepts the text [u].
    [submitted] lists the submissions made to a provider, [transportCalls]
    the invocations of [sendGmailEmail] and [sendOutlookEmail] with their
    argument; nothing reads these two, they record what happened.
    [emails] and [events] are the two collections; a [save] that passes
    the validators of its schema appends.  Failures of the storage itself
    are outside the model. *)
Record World := {
  now : Z;
  random : string;
  objectIds : nat -> string;
  mintedIds : nat;
  gmailApi : nat -> string -> JsError + string;
  urlParses : string -> bool;
  submitted : list Submission;
  transportCalls : list (MailProvider * SendEmailRequest);
  emails : list Email;
  events : list EmailTracking
}.

Definition record_submission (x : Submission) (w : World) : World :=
  {| now := now w; random := random w; objectIds := objectIds w;
     mintedIds := mintedIds w; gmailApi := gmailApi w;
     urlParses := urlParses w;
     submitted := (submitted w ++ [x])%list;
     transportCalls := transportCalls w;
     emails := emails w; events := events w |}.

Definition record_transportCall (x : MailProvider * SendEmailRequest)
    (w : World) : World :=
  {| now := now w; random := random w; objectIds := objectIds w;
     mintedIds := mintedIds w; gmailApi := gmailApi w;
     urlParses := urlParses w;
     submitted := submitted w;
     transportCalls := (transportCalls w ++ [x])%list;
     emails := emails w; events := events w |}.

Definition save_email (x : Email) (w : World) : World :=
  {| now := now w; random := random w; objectIds := objectIds w;
     mintedIds := mintedIds w; gmailApi := gmailApi w;
     urlParses := urlParses w;
     submitted := submitted w; transportCalls := transportCalls w;
     emails := (emails w ++ [x])%list; events := events w |}.

Definition save_event (x : EmailTracking) (w : World) : World :=
  {| now := now w; random := random w; objectIds := objectIds w;
     mintedIds := mintedIds w; gmailApi := gmailApi w;
     urlParses := urlParses w;
     submitted := submitted w; transportCalls := transportCalls w;
     emails := emails w; events := (events w ++ [x])%list |}.

Definition mint_id (w : World) : World :=
  {| now := now w; random := random w; objectIds := objectIds w;
     mintedIds := S (mintedIds w); gmailApi := gmailApi w;
     urlParses := urlParses w;
     submitted := submitted w; transportCalls := transportCalls w;
     emails := emails w; events := events w |}.

Definition at_time (t : Z) (w : World) : World :=
  {| now := t; random := random w; objectIds := objectIds w;
     mintedIds := mintedIds w; gmailApi := gmailApi w;
     urlParses := urlParses w;
     submitted := submitted w; transportCalls := transportCalls w;
     emails := emails w; events := events w |}.

(** ** Computations that may throw *)

Inductive Outcome (A : Type) : Type :=
| Threw (e : JsError)
| Returned (a : A).

Arguments Threw {A} e.
Arguments Returned {A} a.

Definition M (A : Type) : Type := World -> Outcome A * World.

Definition ret {A} (a : A) : M A := fun w => (Returned a, w).

Definition throw {A} (e : JsError) : M A := fun w => (Threw e, w).

Definition bind {A B} (m : M A) (k : A -> M B) : M B :=
  fun w =>
    match m w with
    | (Returned a, w') => k a w'
    | (Threw e, w') => (Threw e, w')
    end.

(** [try { m } catch (error) { h error }] *)
Definition tryCatch {A} (m : M A) (h : JsError -> M A) : M A :=
  fun w =>
    match m w with
    | (Returned a, w') => (Returned a, w')
    | (Threw e, w') => h e w'
    end.

Definition get_world : M World := fun w => (Returned w, w).

Definition modify (f : World -> World) : M unit :=
  fun w => (Returned tt, f w).

Declare Scope js_scope.
Delimit Scope js_scope with js.
Notation "x <- m ;; k" := (bind m (fun x => k))
  (at level 61, m at next level, right associativity) : js_scope.
Notation "m ;;; k" := (bind m (fun _ => k))
  (at level 61, right associativity) : js_scope.
Local Open Scope js_scope.

(** [new mongoose.Types.ObjectId().toString()] *)
Definition newObjectId : M string :=
  fun w => (Returned (objectIds w (mintedIds w)), mint_id w).

(** ** Base64, as [Buffer] encodes and decodes it *)

Module Base64.

Definition b64char (n : N) : ascii :=
  if (n <? 26)%N then ascii_of_N (65 + n)
  else if (n <? 52)%N then ascii_of_N (71 + n)
  else if (n <? 62)%N then ascii_of_N (n - 4)
  else if (n =? 62)%N then "+"%char else "/"%char.

Definition b64value (c : ascii) : option N :=
  if isUpper c then Some (codeOf c - 65)%N
  else if isLower c then Some (codeOf c - 71)%N
  else if isDigit c then Some (codeOf c + 4)%N
  else if (codeOf c =? 43)%N then Some 62%N
  else if (codeOf c =? 47)%N then Some 63%N
  else None.

Definition chars (l : list N) : string :=
  string_of_list_ascii (map b64char l).

Definition bytes (l : list N) : string :=
  string_of_list_ascii (map ascii_of_N l).

(** [Buffer.from(s).toString("base64")] *)
Fixpoint encode (s : string) : string :=
  match s with
  | EmptyString => EmptyString
  | String a EmptyString =>
      let x := codeOf a in
      chars [x / 4; (x mod 4) * 16]%N ++ "=="
  | String a (String b EmptyString) =>
      let x := codeOf a in
      let y := codeOf b in
      chars [x / 4; (x mod 4) * 16 + y / 16; (y mod 16) * 4]%N ++ "="
  | String a (String b (String c rest)) =>
      let x := codeOf a in
      let y := codeOf b in
      let z := codeOf c in
      chars [x / 4; (x mod 4) * 16 + y / 16; (y mod 16) * 4 + z / 64;
             z mod 64]%N ++ encode rest
  end.

(** [Buffer.from(s, "base64")], on groups of four characters. *)
Fixpoint decode (s : string) : string :=
  match s with
  | String a (String b (String c (String d rest))) =>
      match b64value a, b64value b, b64value c, b64value d with
      | Some x, Some y, Some z, Some u =>
          bytes [x * 4 + y / 16; (y mod 16) * 16 + z / 4;
                 (z mod 4) * 64 + u]%N ++ decode rest
      | Some x, Some y, Some z, None =>
          bytes [x * 4 + y / 16; (y mod 16) * 16 + z / 4]%N
      | Some x, Some y, None, _ => bytes [x * 4 + y / 16]%N
      | _, _, _, _ => EmptyString
      end
  | _ => EmptyString
  end.

Definition urlChar (c : ascii) : ascii :=
  if Ascii.eqb c "+"%char then "-"%char
  else if Ascii.eqb c "/"%char then "_"%char else c.

Fixpoint mapChars (f : ascii -> ascii) (s : string) : string :=
  match s with
  | EmptyString => EmptyString
  | String c s' => String (f c) (mapChars f s')
  end.

(** The replacement of the trailing padding by nothing: [/=+$/]. *)
Fixpoint stripPadding (s : string) : string :=
  match s with
  | EmptyString => EmptyString
  | String c s' =>
      let r := stripPadding s' in
      if Ascii.eqb c "="%char && negb (truthy r) then EmptyString
      else String c r
  end.

(** The three replacements of [createGmailMessage]. *)
Definition urlSafe (s : string) : string :=
  stripPadding (mapChars urlChar s).

End Base64.

(** ** Provider transports ([services/emailService.ts]) *)

Record SendResult := { messageId : string }.

Definition nonEmptyList (l : option (list string)) : bool :=
  match l with
  | Some (_ :: _) => true
  | _ => false
  end.

Definition orEmpty (l : option (list string)) : list string :=
  match l with Some x => x | None => [] end.

Definition truthyOpt (s : option string) : bool :=
  match s with Some x => truthy x | None => false end.

Definition orEmptyString (s : option string) : string :=
  match s with Some x => x | None => EmptyString end.

(** [createGmailMessage(emailData)]; the boundary is made of the clock
    reading and a random text. *)
Definition createGmailMessage (clock : Z) (rand : string)
    (emailData : SendEmailRequest) : string :=
  let message := "To: " ++ String.concat ", " (to emailData) ++ CRLF in
  let message :=
    if nonEmptyList (cc emailData)
    then message ++ "Cc: " ++ String.concat ", " (orEmpty (cc emailData))
                 ++ CRLF
    else message in
  let message :=
    if nonEmptyList (bcc emailData)
    then message ++ "Bcc: " ++ String.concat ", " (orEmpty (bcc emailData))
                 ++ CRLF
    else message in
  let message := message ++ "Subject: " ++ subject emailData ++ CRLF in
  let message := message ++ "MIME-Version: 1.0" ++ CRLF in
  let message :=
    if truthyOpt (htmlBody emailData) then
      let boundary := "boundary_" ++ string_of_Z clock ++ "_" ++ rand in
      message
        ++ "Content-Type: multipart/alternative; boundary=" ++ DQ
        ++ boundary ++ DQ ++ CRLF ++ CRLF
        ++ "--" ++ boundary ++ CRLF
        ++ "Content-Type: text/plain; charset=UTF-8" ++ CRLF ++ CRLF
        ++ body emailData ++ CRLF ++ CRLF
        ++ "--" ++ boundary ++ CRLF
        ++ "Content-Type: text/html; charset=UTF-8" ++ CRLF ++ CRLF
        ++ orEmptyString (htmlBody emailData) ++ CRLF ++ CRLF
        ++ "--" ++ boundary ++ "--" ++ CRLF
    else
      message ++ "Content-Type: text/plain; charset=UTF-8" ++ CRLF ++ CRLF
        ++ body emailData in
  Base64.urlSafe (Base64.encode message).

(** [createOutlookMessage(emailData)] *)
Definition createOutlookMessage (emailData : SendEmailRequest)
  : OutlookMessage :=
  {| om_subject := subject emailData;
     om_contentType := if truthyOpt (htmlBody emailData) then HTML else Text;
     om_content :=
       if truthyOpt (htmlBody emailData)
       then orEmptyString (htmlBody emailData) else body emailData;
     toRecipients := to emailData;
     ccRecipients :=
       if nonEmptyList (cc emailData) then cc emailData else None;
     bccRecipients :=
       if nonEmptyList (bcc emailData) then bcc emailData else None |}.

(** [gmail.users.messages.send({ userId: "me", requestBody: { raw } })] *)
Definition gmail_users_messages_send (raw : string) : M string :=
  fun w =>
    let w' := record_submission (GmailSubmission raw) w in
    match gmailApi w (List.length (submitted w)) raw with
    | inl e => (Threw e, w')
    | inr id => (Returned id, w')
    end.

Definition gmailAuthExpired : string :=
  "Gmail authentication expired. Please reconnect your Google account in Settings.".

Definition outlookAuthExpired : string :=
  "Outlook authentication expired. Please reconnect your Microsoft account in Settings.".

Definition codeIs (n : Z) (c : option Z) : bool :=
  match c with Some x => (x =? n)%Z | None => false end.

(** [sendGmailEmail(user, emailData)].  The listener that stores refreshed
    tokens on the user is left out: it does not touch the result.  The
    test of the [catch] clause reads [error.message] as soon as
    [error.code] is not 401, and calling [includes] on a message that is
    missing throws in its turn. *)
Definition sendGmailEmail (user : IUser) (emailData : SendEmailRequest)
  : M SendResult :=
  modify (record_transportCall (gmail, emailData)) ;;;
  tryCatch
    (match find (fun conn => OAuthProvider_eqb (conn_provider conn) google)
                (connectedProviders user) with
     | None => throw (Error "No Google account connected")
     | Some googleConnection =>
         if negb (truthy (accessToken googleConnection))
         then throw (Error "No access token available for Google account")
         else
           w <- get_world ;;
           let message := createGmailMessage (now w) (random w) emailData in
           id <- gmail_users_messages_send message ;;
           ret {| messageId := id |}
     end)
    (fun error =>
       if codeIs 401 (code error)
       then throw (Error gmailAuthExpired)
       else
         match message error with
         | None => throw (TypeError "includes")
         | Some text =>
             if includes text "invalid_grant"
                || includes text "access_token"
                || includes text "refresh"
             then throw (Error gmailAuthExpired)
             else throw (Error ("Failed to send Gmail email: "
                                  ++ or_else text "Unknown error"))
         end).

(** [sendOutlookEmail(user, emailData)] *)
Definition sendOutlookEmail (user : IUser) (emailData : SendEmailRequest)
  : M SendResult :=
  modify (record_transportCall (outlook, emailData)) ;;;
  tryCatch
    (match find (fun conn => OAuthProvider_eqb (conn_provider conn) microsoft)
                (connectedProviders user) with
     | None => throw (Error "No Microsoft account connected")
     | Some microsoftConnection =>
         if negb (truthy (accessToken microsoftConnection))
         then throw (Error "No access token available for Microsoft account")
         else
           let message := createOutlookMessage emailData in
           w <- get_world ;;
           let messageId :=
             "outlook_" ++ string_of_Z (now w) ++ "_" ++ random w in
           ret {| messageId := messageId |}
     end)
    (fun error =>
       if codeIs 401 (response_status error)
       then throw (Error outlookAuthExpired)
       else throw (Error ("Failed to send Outlook email: "
                            ++ or_else (orEmptyString (message error))
                                       "Unknown error"))).

(** ** The validators of the schemas ([models/Email.ts],
    [models/EmailTracking.ts])

    A [save] validates the document first; a document that fails is not
    stored, and [save] throws. *)

(** The [length] of a JavaScript string, in UTF-16 code units, read off
    its UTF-8 bytes: a continuation byte counts nothing, the first byte of
    a four-byte sequence two, any other byte one. *)
Fixpoint jsLength (s : string) : N :=
  match s with
  | EmptyString => 0%N
  | String c s' =>
      ((if between 128 191 c then 0
        else if (240 <=? codeOf c)%N then 2 else 1) + jsLength s')%N
  end.

(** A validator is not run on a field that is missing. *)
Definition whenPresent {A} (p : A -> bool) (o : option A) : bool :=
  match o with Some x => p x | None => true end.

(** The error of a failed validation.  Its message begins with the name
    of the model; the list of the failed paths that follows it is left
    out. *)
Definition ValidationError (model : string) : JsError :=
  Error (model ++ " validation failed").

(** *** The address expression [/^[^\s@]+@[^\s@]+\.[^\s@]+$/] *)

(** White space begins at the head of [s]. *)
Definition spaceAt (s : string) : bool :=
  match s with
  | EmptyString => false
  | String c _ => Regex.asciiSpace c || Regex.unicodeSpaceAt s
  end.

Definition atSign : ascii := "@"%char.
Definition dot : ascii := "."%char.

(** The head of [s] is a character of the class of the address
    expression: neither white space nor the at sign. *)
Definition inClass (s : string) : bool :=
  match s with
  | EmptyString => false
  | String c _ => negb (spaceAt s) && negb (Ascii.eqb c atSign)
  end.

(** [s] is made of characters of the class only. *)
Fixpoint classAll (s : string) : bool :=
  match s with
  | EmptyString => true
  | String _ s' => inClass s && classAll s'
  end.

(** The domain part: one or more characters of the class, a dot, one or
    more characters of the class, up to the end.  [seen] tells whether a
    character was read already. *)
Fixpoint matchDomain (seen : bool) (s : string) : bool :=
  match s with
  | EmptyString => false
  | String c s' =>
      (seen && Ascii.eqb c dot && truthy s' && classAll s')
      || (inClass s && matchDomain true s')
  end.

(** The local part, the at sign and the domain part. *)
Fixpoint matchAddress (seen : bool) (s : string) : bool :=
  match s with
  | EmptyString => false
  | String c s' =>
      (seen && Ascii.eqb c atSign && matchDomain false s')
      || (inClass s && matchAddress true s')
  end.

(** [emailRegex.test(email)] for the anchored expression: class, at sign,
    class, dot, class, each class one or more times. *)
Definition emailRegexTest (email : string) : bool :=
  matchAddress false email.

(** *** The client address: [ipv4Regex] and [ipv6Regex] *)

Definition isHex (c : ascii) : bool :=
  isDigit c || between 65 70 c || between 97 102 c.

(** One number of the dotted form:
    [25[0-5]|2[0-4][0-9]|[01]?[0-9][0-9]?]. *)
Definition octetTest (s : string) : bool :=
  match s with
  | String a EmptyString => isDigit a
  | String a (String b EmptyString) => isDigit a && isDigit b
  | String a (String b (String c EmptyString)) =>
      (Ascii.eqb a "2"%char && Ascii.eqb b "5"%char && between 48 53 c)
      || (Ascii.eqb a "2"%char && between 48 52 b && isDigit c)
      || (between 48 49 a && isDigit b && isDigit c)
  | _ => false
  end.

(** [ipv4Regex.test(ip)]: four such numbers, a dot between them. *)
Definition ipv4RegexTest (ip : string) : bool :=
  match splitOn dot ip with
  | [a; b; c; d] => octetTest a && octetTest b && octetTest c && octetTest d
  | _ => false
  end.

(** One group of the long form: one to four hexadecimal digits. *)
Definition groupTest (s : string) : bool :=
  truthy s && (String.length s <=? 4)%nat && allChars isHex s.

(** [ipv6Regex.test(ip)]: eight groups, a colon between them; the
    shortened forms of an address are not of this shape. *)
Definition ipv6RegexTest (ip : string) : bool :=
  match splitOn ":"%char ip with
  | [a; b; c; d; e; f; g; h] => forallb groupTest [a; b; c; d; e; f; g; h]
  | _ => false
  end.

(** *** The tracking schema *)

(** The validator of [ipAddress] *)
Definition validIpAddress (ip : string) : bool :=
  negb (truthy ip) || ipv4RegexTest ip || ipv6RegexTest ip.

(** The validator of [clickedUrl]: the text is empty, or [new URL(url)]
    does not throw. *)
Definition validClickedUrl (parses : string -> bool) (url : string) : bool :=
  negb (truthy url) || parses url.

(** The validator of [recipientEmail] *)
Definition validRecipientEmail (email : string) : bool :=
  negb (truthy email) || emailRegexTest email.

(** The validation of a tracking row: [trackingId] is required,
    [userAgent] has at most 1000 characters and [clickedUrl] at most 2000,
    and the three validators hold.  The id of the email and the type of
    the event are always there. *)
Definition validTrackingEvent (parses : string -> bool)
    (ev : EmailTracking) : bool :=
  truthy (ev_trackingId ev)
  && whenPresent validIpAddress (ipAddress ev)
  && whenPresent (fun ua => (jsLength ua <=? 1000)%N) (userAgent ev)
  && whenPresent
       (fun url => (jsLength url <=? 2000)%N && validClickedUrl parses url)
       (clickedUrl ev)
  && whenPresent validRecipientEmail (recipientEmail ev).

(** [trackingEvent.save()] *)
Definition saveTrackingEvent (ev : EmailTracking) : M unit :=
  fun w =>
    if validTrackingEvent (urlParses w) ev
    then (Returned tt, save_event ev w)
    else (Threw (ValidationError "EmailTracking"), w).

(** *** The email schema *)

(** The class [\w] *)
Definition isWord (c : ascii) : bool :=
  isDigit c || isUpper c || isLower c || Ascii.eqb c "_"%char.

(** [\w+([.-]?\w+)*] up to the end of [s]: words, with at most one dot
    or hyphen between two of them.  [afterWord] tells whether the
    character before was of a word. *)
Fixpoint wordsTest (afterWord : bool) (s : string) : bool :=
  match s with
  | EmptyString => afterWord
  | String c s' =>
      if isWord c then wordsTest true s'
      else if (Ascii.eqb c dot || Ascii.eqb c "-"%char) && afterWord
      then wordsTest false s'
      else false
  end.

(** [\w+([.-]?\w+)*(\.\w{2,3})+] up to the end: the text after the last
    dot has two or three characters, all of a word, and the text before
    that dot is words again. *)
Definition hostTest (host : string) : bool :=
  match rev (splitOn dot host) with
  | last :: ((_ :: _) as before) =>
      (2 <=? String.length last)%nat && (String.length last <=? 3)%nat
      && allChars isWord last
      && wordsTest false (String.concat "." (rev before))
  | _ => false
  end.

(** The expression of the three recipient validators:
    [/^\w+([.-]?\w+)*@\w+([.-]?\w+)*(\.\w{2,3})+$/]. *)
Definition recipientRegexTest (email : string) : bool :=
  match splitOn atSign email with
  | [name; host] => wordsTest false name && hostTest host
  | _ => false
  end.

(** The width in bytes of the white space at the head of [s]; 0 when
    there is none. *)
Definition spaceWidth (s : string) : nat :=
  match s with
  | EmptyString => 0
  | String c _ =>
      if Regex.asciiSpace c then 1
      else if Regex.unicodeSpaceAt s
      then (if (codeOf c =? 194)%N then 2 else 3)
      else 0
  end.

(** [s] is white space from its head to its end; [skip] bytes of the
    character at hand are still to pass. *)
Fixpoint allSpace (skip : nat) (s : string) : bool :=
  match s with
  | EmptyString => Nat.eqb skip 0
  | String _ s' =>
      match skip with
      | S n => allSpace n s'
      | O =>
          match spaceWidth s with
          | O => false
          | S n => allSpace n s'
          end
      end
  end.

(** [s.trimStart()] *)
Fixpoint trimStart (skip : nat) (s : string) : string :=
  match s with
  | EmptyString => EmptyString
  | String _ s' =>
      match skip with
      | S n => trimStart n s'
      | O =>
          match spaceWidth s with
          | O => s
          | S n => trimStart n s'
          end
      end
  end.

(** [s.trimEnd()] *)
Fixpoint trimEnd (s : string) : string :=
  match s with
  | EmptyString => EmptyString
  | String c s' => if allSpace 0 s then EmptyString else String c (trimEnd s')
  end.

(** [s.trim()] *)
Definition trim (s : string) : string := trimEnd (trimStart 0 s).

(** The validation of an email record, whose subject was trimmed when it
    was set: the subject and the body are required, with at most 500 and
    50000 characters, the HTML body has at most 100000, there is a
    recipient in [to], every address of the three lists matches the
    expression, and the tracking id is required.  That no other record
    has the same tracking id is taken for granted: the ids are fresh. *)
Definition validContent (subject : string) (to cc bcc : list string)
    (body : string) (htmlBody : option string) : bool :=
  truthy subject && (jsLength subject <=? 500)%N
  && negb (Nat.eqb (List.length to) 0)
  && forallb recipientRegexTest to
  && forallb recipientRegexTest cc
  && forallb recipientRegexTest bcc
  && truthy body && (jsLength body <=? 50000)%N
  && whenPresent (fun h => (jsLength h <=? 100000)%N) htmlBody.

Definition validEmail (e : Email) : bool :=
  validContent (email_subject e) (email_to e) (email_cc e) (email_bcc e)
    (email_body e) (email_htmlBody e)
  && truthy (email_trackingId e).

(** [email.toLowerCase().trim()] in the hook that runs before a record is
    stored.  The hook runs after the validation, so the address is made
    of ASCII letters, digits, and the four signs the expression admits. *)
Fixpoint toLowerCase (s : string) : string :=
  match s with
  | EmptyString => EmptyString
  | String c s' => String (Regex.lower c) (toLowerCase s')
  end.

Definition normalizeAddress (email : string) : string :=
  trim (toLowerCase email).

Definition preSave (e : Email) : Email :=
  {| email_id := email_id e;
     email_userId := email_userId e;
     email_messageId := email_messageId e;
     email_subject := email_subject e;
     email_to := map normalizeAddress (email_to e);
     email_cc := map normalizeAddress (email_cc e);
     email_bcc := map normalizeAddress (email_bcc e);
     email_body := email_body e;
     email_htmlBody := email_htmlBody e;
     sendTimestamp := sendTimestamp e;
     status := status e;
     email_provider := email_provider e;
     email_trackingId := email_trackingId e;
     error := error e |}.

(** [newEmail.save()] *)
Definition saveEmail (e : Email) : M unit :=
  fun w =>
    if validEmail e
    then (Returned tt, save_email (preSave e) w)
    else (Threw (ValidationError "Email"), w).

(** ** Dispatch ([EmailService.sendEmailWithTracking]) *)

Record TrackedSendResult := {
  result_messageId : string;
  sentCount : nat
}.

Definition firstOrEmpty (l : list string) : string :=
  match l with x :: _ => x | [] => EmptyString end.

Section Dispatch.

Variable config : EnvironmentConfig.

(** [[...emailData.to, ...(emailData.cc || []), ...(emailData.bcc || [])]] *)
Definition allRecipients (emailData : SendEmailRequest) : list string :=
  (to emailData ++ orEmpty (cc emailData) ++ orEmpty (bcc emailData))%list.

(** The message handed to the transport for one recipient:
    [{ ...emailData, to: [recipient], cc: [], bcc: [], body, htmlBody }]. *)
Definition individualEmailData (emailData : SendEmailRequest)
    (trackingId recipient : string) : SendEmailRequest :=
  let processed :=
    processEmailWithRecipientTracking config (body emailData) trackingId
      recipient in
  {| to := [recipient];
     cc := Some [];
     bcc := Some [];
     subject := subject emailData;
     body := processedBody processed;
     htmlBody := Some (processedHtmlBody processed);
     provider := provider emailData |}.

(** One turn of the loop over the recipients, with its own [try]/[catch];
    the state is [(sentCount, messageIds)]. *)
Definition sendToRecipient (user : IUser) (emailData : SendEmailRequest)
    (trackingId recipient : string) (st : nat * list string)
  : M (nat * list string) :=
  tryCatch
    (let individualEmailData :=
       individualEmailData emailData trackingId recipient in
     response <-
       match provider emailData with
       | gmail => sendGmailEmail user individualEmailData
       | outlook => sendOutlookEmail user individualEmailData
       end ;;
     ret (S (fst st), (snd st ++ [messageId response])%list))
    (fun error => ret st).

Fixpoint sendLoop (user : IUser) (emailData : SendEmailRequest)
    (trackingId : string) (recipients : list string)
    (st : nat * list string) : M (nat * list string) :=
  match recipients with
  | [] => ret st
  | recipient :: rest =>
      st' <- sendToRecipient user emailData trackingId recipient st ;;
      sendLoop user emailData trackingId rest st'
  end.

(** [sendEmailWithTracking(user, emailData, trackingId)] *)
Definition sendEmailWithTracking (user : IUser)
    (emailData : SendEmailRequest) (trackingId : string)
  : M TrackedSendResult :=
  st <- sendLoop user emailData trackingId (allRecipients emailData)
          (O, []) ;;
  w <- get_world ;;
  ret {| result_messageId :=
           or_else (firstOrEmpty (snd st))
                   ("bulk_send_" ++ string_of_Z (now w));
         sentCount := fst st |}.

(** ** The [POST /send] handler ([routes/email.ts]) *)

Record SendResponse := {
  res_status : Z;
  res_success : bool;
  res_error : option string;
  res_emailId : string;
  res_trackingId : string;
  res_sentCount : nat
}.

(** What the [try]/[catch] around the dispatch leaves in the variables
    [messageId], [status], [error] and [sentCount]. *)
Record SendAttempt := {
  att_messageId : option string;
  att_status : EmailStatus;
  att_error : option string;
  att_sentCount : nat
}.

Definition attemptSend (user : IUser) (emailData : SendEmailRequest)
    (trackingId : string) : M SendAttempt :=
  tryCatch
    (result <- sendEmailWithTracking user emailData trackingId ;;
     ret {| att_messageId := Some (result_messageId result);
            att_status := if (0 <? sentCount result)%nat then sent else failed;
            att_error := None;
            att_sentCount := sentCount result |})
    (fun err =>
       ret {| att_messageId := None;
              att_status := failed;
              att_error := message err;
              att_sentCount := O |}).

Definition isSent (s : EmailStatus) : bool :=
  match s with sent => true | _ => false end.

(** The handler, after [requireAuth] and [validateEmailSend]; [reqBody]
    is the validated request body.  The schema trims the subject when the
    record is constructed.  When [save] throws, so does the handler, and
    the request is answered by the error handler of the application. *)
Definition postSend (user : IUser) (reqBody : SendEmailRequest)
  : M SendResponse :=
  trackingId <- newObjectId ;;
  let emailData :=
    {| to := to reqBody;
       cc := Some (orEmpty (cc reqBody));
       bcc := Some (orEmpty (bcc reqBody));
       subject := subject reqBody;
       body := body reqBody;
       htmlBody := htmlBody reqBody;
       provider := provider reqBody |} in
  attempt <- attemptSend user emailData trackingId ;;
  _id <- newObjectId ;;
  w <- get_world ;;
  let newEmail :=
    {| email_id := _id;
       email_userId := user_id user;
       email_messageId := att_messageId attempt;
       email_subject := trim (subject reqBody);
       email_to := to emailData;
       email_cc := orEmpty (cc emailData);
       email_bcc := orEmpty (bcc emailData);
       email_body := body reqBody;
       email_htmlBody := htmlBody reqBody;
       sendTimestamp := now w;
       status := att_status attempt;
       email_provider := provider reqBody;
       email_trackingId := trackingId;
       error := att_error attempt |} in
  saveEmail newEmail ;;;
  ret (if isSent (att_status attempt)
       then {| res_status := 200; res_success := true; res_error := None;
               res_emailId := _id; res_trackingId := trackingId;
               res_sentCount := att_sentCount attempt |}
       else {| res_status := 500; res_success := false;
               res_error :=
                 Some (or_else (orEmptyString (att_error attempt))
                               "Failed to send email");
               res_emailId := _id; res_trackingId := trackingId;
               res_sentCount := att_sentCount attempt |}).

End Dispatch.

(** ** Tracking ([utils/trackingUtils.ts], [routes/tracking.ts]) *)

Record CooldownStatus := {
  isActive : bool;
  remainingSeconds : Z
}.

(** [Math.ceil(a / b)] on integers, [b] positive. *)
Definition ceilDiv (a b : Z) : Z := (- ((- a) / b))%Z.

Record RequestMeta := {
  req_ip : option string;
  req_userAgent : option string;
  req_referer : option string;
  req_acceptLanguage : option string
}.

Inductive Response :=
| Json (httpStatus : Z) (success : bool) (err : string)
| Image (contentType : string) (contentLength : nat) (content : string)
| Redirect (url : string)
| RouteNotFound.

Definition pixelBase64 : string :=
  "iVBORw0KGgoAAAANSUhEUgAAAAEAAAABCAYAAAAfFcSJAAAADUlEQVR42mNkYPhfDwAChwGA60e6kgAAAABJRU5ErkJggg==".

(** The response every completed pixel request ends with: the decoded
    image under [Content-Type: image/png]. *)
Definition pixelResponse : Response :=
  let pixel := Base64.decode pixelBase64 in
  Image "image/png" (String.length pixel) pixel.

Section Tracking.

Variable config : EnvironmentConfig.

(** [checkTrackingCooldown(sentTimestamp)] *)
Definition checkTrackingCooldown (sentTimestamp : Z) : M CooldownStatus :=
  w <- get_world ;;
  let timeDifference := (now w - sentTimestamp)%Z in
  let cooldownPeriod := (TRACKING_COOLDOWN_SECONDS config * 1000)%Z in
  let isActive := (timeDifference <? cooldownPeriod)%Z in
  let remainingSeconds :=
    if isActive then ceilDiv (cooldownPeriod - timeDifference) 1000
    else 0%Z in
  ret {| isActive := isActive; remainingSeconds := remainingSeconds |}.

(** [Email.findOne({ trackingId })] *)
Definition findOneByTrackingId (trackingId : string) : M (option Email) :=
  w <- get_world ;;
  ret (find (fun e => String.eqb (email_trackingId e) trackingId) (emails w)).

Definition newTrackingEvent (trackingId : string) (email : Email)
    (type : EventType) (url : option string) (recipient : string)
    (req : RequestMeta) (clock : Z) : EmailTracking :=
  {| ev_trackingId := trackingId;
     ev_emailId := email_id email;
     eventType := type;
     ipAddress := req_ip req;
     userAgent := req_userAgent req;
     clickedUrl := url;
     recipientEmail := Some recipient;
     meta_timestamp := clock;
     meta_referer := req_referer req;
     meta_acceptLanguage := req_acceptLanguage req |}.

(** The handler of [GET /pixel/:trackingId/:recipient].  When the [save]
    of the row throws, so does the handler: the error handler of the
    application answers the request, and no image is sent. *)
Definition pixelHandler (trackingId recipient : string) (req : RequestMeta)
  : M Response :=
  if negb (truthy trackingId)
  then ret (Json 400 false "Missing or invalid trackingId parameter")
  else
    email <- findOneByTrackingId trackingId ;;
    match email with
    | Some email =>
        cooldownStatus <- checkTrackingCooldown (sendTimestamp email) ;;
        if isActive cooldownStatus
        then ret tt
        else
          w <- get_world ;;
          saveTrackingEvent
            (newTrackingEvent trackingId email open None recipient req
               (now w))
    | None => ret tt
    end ;;;
    ret pixelResponse.

(** [validateClickTracking]: the three parameters must not be empty. *)
Definition validateClickTracking (trackingId url recipient : string) : bool :=
  truthy trackingId && truthy url && truthy recipient.

(** The handler of [GET /click/:trackingId/:url/:recipient], which
    likewise throws, and does not redirect, when the [save] throws. *)
Definition clickHandler (trackingId url recipient : string)
    (req : RequestMeta) : M Response :=
  email <- findOneByTrackingId trackingId ;;
  match email with
  | Some email =>
      w <- get_world ;;
      saveTrackingEvent
        (newTrackingEvent trackingId email click (Some url) recipient req
           (now w))
  | None => ret tt
  end ;;;
  ret (Redirect url).

(** The two tracking routes, for a request their rate limiter lets
    through (it turns away a client that made more than 200 requests in a
    minute, and is not part of the model).  A parameter that is not
    percent-encoded UTF-8 is refused by the framework; the decoding here
    tells only whether the percent signs are followed by two hexadecimal
    digits. *)
Definition trackingRouter (path : string) (req : RequestMeta) : M Response :=
  match parsePixelRequest path with
  | Params (trackingId, recipient) => pixelHandler trackingId recipient req
  | MalformedTrackingUrl => ret (Json 400 false "Failed to decode param")
  | NoMatch =>
      match parseClickRequest path with
      | Params (trackingId, url, recipient) =>
          if validateClickTracking trackingId url recipient
          then clickHandler trackingId url recipient req
          else ret (Json 400 false "Validation failed")
      | MalformedTrackingUrl => ret (Json 400 false "Failed to decode param")
      | NoMatch => ret RouteNotFound
      end
  end.


End Tracking.

(** ** Notions the statements below are written with *)

(** The provider transport of a request: the branch on
    [emailData.provider] in the loop of [sendEmailWithTracking]. *)
Definition transportOf (p : MailProvider)
  : IUser -> SendEmailRequest -> M SendResult :=
  match p with
  | gmail => sendGmailEmail
  | outlook => sendOutlookEmail
  end.

(** The outcome of each recipient's send, in the order of the loop: the
    transport is run on the recipient's copy, one recipient after the
    other; [runRecipients] also gives the world the last send leaves. *)
Fixpoint runRecipients (config : EnvironmentConfig) (user : IUser)
    (emailData : SendEmailRequest) (trackingId : string)
    (recipients : list string) (w : World)
  : list (Outcome SendResult) * World :=
  match recipients with
  | [] => ([], w)
  | recipient :: rest =>
      let '(o, w') :=
        transportOf (provider emailData) user
          (individualEmailData config emailData trackingId recipient) w in
      let '(os, w'') :=
        runRecipients config user emailData trackingId rest w' in
      (o :: os, w'')
  end.

Definition recipientOutcomes (config : EnvironmentConfig) (user : IUser)
    (emailData : SendEmailRequest) (trackingId : string) (w : World)
  : list (Outcome SendResult) :=
  fst (runRecipients config user emailData trackingId
         (allRecipients emailData) w).

Definition isFailure {A} (o : Outcome A) : bool :=
  match o with Threw _ => true | Returned _ => false end.

(** The provider message ids of the sends that succeeded. *)
Fixpoint successIds (l : list (Outcome SendResult)) : list string :=
  match l with
  | [] => []
  | Returned r :: l' => messageId r :: successIds l'
  | Threw _ :: l' => successIds l'
  end.

(** The failure message of the first recipient's send. *)
Definition firstFailureMessage (l : list (Outcome SendResult))
  : option string :=
  match l with
  | Threw e :: _ => message e
  | _ => None
  end.

(** The two error classes of the Gmail transport, told apart by their
    message. *)
Definition AuthExpired (e : JsError) : Prop :=
  message e = Some gmailAuthExpired.

Definition TransportError (e : JsError) : Prop :=
  exists reason,
    message e = Some ("Failed to send Gmail email: " ++ reason).

(** A request whose record the email schema accepts, under the tracking
    id [trackingId]. *)
Definition storable (reqBody : SendEmailRequest) (trackingId : string)
  : bool :=
  validContent (trim (subject reqBody)) (to reqBody)
    (orEmpty (cc reqBody)) (orEmpty (bcc reqBody)) (body reqBody)
    (htmlBody reqBody)
  && truthy trackingId.

(** [text] has [word] somewhere in it. *)
Definition mentions (text word : string) : Prop :=
  exists before after, text = before ++ word ++ after.

(** The words whose presence in the message of a provider error makes the
    Gmail transport report an expired authentication. *)
Definition authWords : list string :=
  ["invalid_grant"; "access_token"; "refresh"].

(** The provider signal as the specification words it: the answer has the
    HTTP status 401, or the error is of the invalid_grant class. *)
Definition specTokenRejected (err : JsError) : bool :=
  codeIs 401 (code err) || codeIs 401 (response_status err)
  || includes (orEmptyString (message err)) "invalid_grant".

(** Characters that neither end nor break a path segment: all but the
    slash, the question mark, the hash and the percent sign. *)
Definition segmentChar (c : ascii) : bool :=
  negb (Ascii.eqb c "/"%char || Ascii.eqb c "?"%char
        || Ascii.eqb c "#"%char || Ascii.eqb c percent).

(** Characters that do not begin a query or a fragment, and those that in
    addition do not separate segments. *)
Definition queryFree (c : ascii) : bool :=
  negb (Ascii.eqb c "?"%char || Ascii.eqb c "#"%char).

Definition pathChar (c : ascii) : bool :=
  queryFree c && negb (Ascii.eqb c "/"%char).

(** A tracking id that may stand in a path as it is: not empty, and free
    of the slash, the question mark, the hash and the percent sign.  The
    hexadecimal text of an [ObjectId] is one. *)
Definition plainSegment (s : string) : bool :=
  truthy s && allChars segmentChar s.

(** The size a PNG file declares: after the eight bytes of the signature
    comes the [IHDR] chunk with the width and the height on four bytes
    each. *)
Definition be32 (a b c d : ascii) : N :=
  (((codeOf a * 256 + codeOf b) * 256 + codeOf c) * 256 + codeOf d)%N.

Definition pngSize (file : string) : option (N * N) :=
  match list_ascii_of_string file with
  | s0 :: s1 :: s2 :: s3 :: s4 :: s5 :: s6 :: s7
      :: _ :: _ :: _ :: _ :: i :: h :: d :: r
      :: w0 :: w1 :: w2 :: w3 :: h0 :: h1 :: h2 :: h3 :: _ =>
      if (list_eq_dec N.eq_dec
            (map codeOf [s0; s1; s2; s3; s4; s5; s6; s7; i; h; d; r])
            [137; 80; 78; 71; 13; 10; 26; 10; 73; 72; 68; 82]%N)
      then Some (be32 w0 w1 w2 w3, be32 h0 h1 h2 h3)
      else None
  | _ => None
  end.

(** A response that renders as a one by one image. *)
Definition validPixel (r : Response) : bool :=
  match r with
  | Image contentType contentLength content =>
      String.eqb contentType "image/png"
      && Nat.eqb contentLength (String.length content)
      && match pngSize content with
         | Some (w, h) => (w =? 1)%N && (h =? 1)%N
         | None => false
         end
  | _ => false
  end.



(** ** Sample data *)

Module Sample.

Definition config : EnvironmentConfig :=
  {| APP_URL := "http://localhost:6333"; TRACKING_COOLDOWN_SECONDS := 10 |}.

Definition invalidCredentials : JsError :=
  {| message := Some "Invalid Credentials"; code := Some 401%Z;
     response_status := None |}.

(** What the URL constructor says of the links of the sample data, which
    it accepts; other texts do not occur in the examples. *)
Definition urlAccepted (u : string) : bool :=
  String.eqb u "https://example.com/a?b=1&c=2"
  || String.eqb u "https://example.com/".

(** A world whose Gmail API accepts every message. *)
Definition world : World :=
  {| now := 1000;
     random := "k3j9x0q1z";
     objectIds := fun n => "64b7f0c2a1" ++ string_of_Z (Z.of_nat n);
     mintedIds := 0;
     gmailApi := fun n _ => inr ("18c2f" ++ string_of_Z (Z.of_nat n));
     urlParses := urlAccepted;
     submitted := [];
     transportCalls := [];
     emails := [];
     events := [] |}.

(** A world whose Gmail API rejects the token on every call. *)
Definition rejectingWorld : World :=
  {| now := 1000;
     random := "k3j9x0q1z";
     objectIds := fun n => "64b7f0c2a1" ++ string_of_Z (Z.of_nat n);
     mintedIds := 0;
     gmailApi := fun _ _ => inl invalidCredentials;
     urlParses := urlAccepted;
     submitted := [];
     transportCalls := [];
     emails := [];
     events := [] |}.

(** A world whose Gmail API answers every submission with [err]. *)
Definition answering (err : JsError) : World :=
  {| now := 1000;
     random := "k3j9x0q1z";
     objectIds := fun n => "64b7f0c2a1" ++ string_of_Z (Z.of_nat n);
     mintedIds := 0;
     gmailApi := fun _ _ => inl err;
     urlParses := urlAccepted;
     submitted := [];
     transportCalls := [];
     emails := [];
     events := [] |}.

(** A provider error that tells of a quota, not of the token. *)
Definition quotaExceeded : JsError :=
  {| message := Some "Quota exceeded, refresh the page later";
     code := Some 403%Z; response_status := Some 403%Z |}.

(** A world whose Gmail API gives every accepted message an empty id. *)
Definition emptyIdWorld : World :=
  {| now := 1000;
     random := "k3j9x0q1z";
     objectIds := fun n => "64b7f0c2a1" ++ string_of_Z (Z.of_nat n);
     mintedIds := 0;
     gmailApi := fun _ _ => inr EmptyString;
     urlParses := urlAccepted;
     submitted := [];
     transportCalls := [];
     emails := [];
     events := [] |}.

Definition user : IUser :=
  {| user_id := "u1";
     connectedProviders :=
       [ {| conn_provider := google; conn_email := "me@gmail.com";
            accessToken := "ya29.token"; refreshToken := None |};
         {| conn_provider := microsoft; conn_email := "me@outlook.com";
            accessToken := "EwB.token"; refreshToken := None |} ] |}.

Definition request (p : MailProvider) : SendEmailRequest :=
  {| to := ["alice@example.com"; "bob@example.com"];
     cc := None;
     bcc := Some ["carol@example.com"];
     subject := "Hello";
     body := "Please read https://example.com/a?b=1&c=2 today";
     htmlBody := None;
     provider := p |}.

(** The request as the [POST /send] handler hands it to the dispatch. *)
Definition dispatched (p : MailProvider) : SendEmailRequest :=
  {| to := to (request p);
     cc := Some (orEmpty (cc (request p)));
     bcc := Some (orEmpty (bcc (request p)));
     subject := subject (request p);
     body := body (request p);
     htmlBody := htmlBody (request p);
     provider := p |}.

Definition browser : RequestMeta :=
  {| req_ip := Some "203.0.113.7"; req_userAgent := Some "Mozilla/5.0";
     req_referer := None; req_acceptLanguage := Some "en" |}.

(** The world after the sample request was sent through Gmail at time
    1000: one stored email, whose tracking id is the first minted id. *)
Definition sentWorld : World :=
  snd (postSend config user (request gmail) world).

Definition sentTrackingId : string := objectIds world 0.

(** The record that request left in the collection. *)
Definition sentEmail : Email :=
  {| email_id := "64b7f0c2a11";
     email_userId := "u1";
     email_messageId := Some "18c2f0";
     email_subject := "Hello";
     email_to := ["alice@example.com"; "bob@example.com"];
     email_cc := [];
     email_bcc := ["carol@example.com"];
     email_body := "Please read https://example.com/a?b=1&c=2 today";
     email_htmlBody := None;
     sendTimestamp := 1000;
     status := sent;
     email_provider := gmail;
     email_trackingId := "64b7f0c2a10";
     error := None |}.

Definition pixelPath (recipient : string) : string :=
  "/api/tracking/pixel/" ++ sentTrackingId ++ "/"
    ++ encodeURIComponent recipient.

Definition clickPath (trackingId url recipient : string) : string :=
  "/api/tracking/click/" ++ trackingId ++ "/" ++ encodeURIComponent url
    ++ "/" ++ encodeURIComponent recipient.

End Sample.

(** ** The rest of the service ([services/emailService.ts]) *)

(** The pixel markup of [addEmailTrackingForRecipient]. *)
Definition trackingPixel (trackingPixelUrl : string) : string :=
  "<img src=" ++ DQ ++ trackingPixelUrl ++ DQ ++ " width=" ++ DQ ++ "1"
    ++ DQ ++ " height=" ++ DQ ++ "1" ++ DQ ++ " style=" ++ DQ
    ++ "display:none;" ++ DQ ++ " alt=" ++ DQ ++ DQ ++ " />".

Definition closingBody : string := "</body>".

Definition dollar : ascii := ascii_of_nat 36.

(** The first occurrence of [pat] in [s]: the text before it and the text
    after it. *)
Fixpoint splitAtFirst (pat s : string) : option (string * string) :=
  match stripPrefix pat s with
  | Some rest => Some (EmptyString, rest)
  | None =>
      match s with
      | EmptyString => None
      | String c s' =>
          match splitAtFirst pat s' with
          | Some (before, after) => Some (String c before, after)
          | None => None
          end
      end
  end.

(** What [String.prototype.replace] makes of a replacement text when the
    pattern is a string (there are no captures): a doubled dollar is one
    dollar, dollar-ampersand the matched text, dollar-backquote the text
    before the match, dollar-quote the text after it; any other dollar
    stays. *)
Fixpoint expandReplacement (matched before after : string)
    (replacement : string) : string :=
  match replacement with
  | EmptyString => EmptyString
  | String c r =>
      if Ascii.eqb c dollar then
        match r with
        | String d r' =>
            if Ascii.eqb d dollar
            then String dollar (expandReplacement matched before after r')
            else if Ascii.eqb d "&"%char
            then matched ++ expandReplacement matched before after r'
            else if Ascii.eqb d (ascii_of_nat 96)
            then before ++ expandReplacement matched before after r'
            else if Ascii.eqb d "'"%char
            then after ++ expandReplacement matched before after r'
            else String c (expandReplacement matched before after r)
        | EmptyString => String c EmptyString
        end
      else String c (expandReplacement matched before after r)
  end.

(** [content.replace(pat, replacement)] with a string pattern: the first
    occurrence only. *)
Definition replaceFirst (pat replacement content : string) : string :=
  match splitAtFirst pat content with
  | Some (before, after) =>
      before ++ expandReplacement pat before after replacement ++ after
  | None => content
  end.

Definition isSome {A} (o : option A) : bool :=
  match o with Some _ => true | None => false end.

Section MoreService.

Variable config : EnvironmentConfig.

(** [addEmailTrackingForRecipient(content, trackingId, recipientEmail, isHtml)] *)
Definition addEmailTrackingForRecipient
    (content trackingId recipientEmail : string) (isHtml : bool) : string :=
  let trackingPixelUrl :=
    APP_URL config ++ "/api/tracking/pixel/" ++ trackingId ++ "/"
      ++ encodeURIComponent recipientEmail in
  if isHtml then
    let trackingPixel := trackingPixel trackingPixelUrl in
    if isSome (splitAtFirst closingBody content)
    then replaceFirst closingBody (trackingPixel ++ closingBody) content
    else content ++ trackingPixel
  else content.

(** The URL built in [addClickTracking], which carries the destination in
    the query:
    [`${config.APP_URL}/api/tracking/click/${trackingId}?url=${encodeURIComponent(url)}`]. *)
Definition queryTrackingUrl (trackingId url : string) : string :=
  APP_URL config ++ "/api/tracking/click/" ++ trackingId ++ "?url="
    ++ encodeURIComponent url.

(** [addClickTracking(content, trackingId, isHtml)] *)
Definition addClickTracking (content trackingId : string) (isHtml : bool)
  : string :=
  Regex.replaceUrls
    (fun url =>
       if isHtml then queryTrackingUrl trackingId url
       else queryTrackingUrl trackingId url)
    content.

(** [sendEmail(user, emailData)] *)
Definition sendEmail (user : IUser) (emailData : SendEmailRequest)
  : M SendResult :=
  trackingId <- newObjectId ;;
  result <- sendEmailWithTracking config user emailData trackingId ;;
  ret {| messageId := result_messageId result |}.

End MoreService.

(** [sendEmailLegacy(user, emailData)]; the provider is one of the two, so
    the last branch of the source is never reached. *)
Definition sendEmailLegacy (user : IUser) (emailData : SendEmailRequest)
  : M SendResult :=
  match provider emailData with
  | gmail => sendGmailEmail user emailData
  | outlook => sendOutlookEmail user emailData
  end.

(** *** [validateEmailAddresses] *)

(** The expression of [validateEmailAddresses] is the one the tracking
    schema tests a recipient with: [emailRegexTest], above. *)

(** [validateEmailAddresses(emails)] *)
Definition validateEmailAddresses (emails : list string) : bool :=
  forallb emailRegexTest emails.

(** *** The email routes ([routes/email.ts]) *)

Definition with_emails (l : list Email) (w : World) : World :=
  {| now := now w; random := random w; objectIds := objectIds w;
     mintedIds := mintedIds w; gmailApi := gmailApi w;
     urlParses := urlParses w;
     submitted := submitted w; transportCalls := transportCalls w;
     emails := l; events := events w |}.

(** The query [{ _id: id, userId: user._id }].  Identifiers are
    ObjectIds, written as their canonical hexadecimal text; [id] is the
    ObjectId the path parameter is cast to. *)
Definition ownedEmail (user : IUser) (id : string) (e : Email) : bool :=
  String.eqb (email_id e) id && String.eqb (email_userId e) (user_id user).

Inductive EmailReply :=
| EmailData (e : Email)          (* 200 with the record *)
| EmailList (l : list Email)     (* 200 with the records *)
| EmailDeleted                   (* 200, deleted *)
| EmailNotFound.                 (* 404 *)

Fixpoint removeFirst (p : Email -> bool) (l : list Email) : list Email :=
  match l with
  | [] => []
  | e :: l' => if p e then l' else e :: removeFirst p l'
  end.

(** Insertion in a list that is ordered by decreasing send time. *)
Fixpoint insertNewestFirst (e : Email) (l : list Email) : list Email :=
  match l with
  | [] => [e]
  | x :: l' =>
      if (sendTimestamp x <=? sendTimestamp e)%Z then e :: x :: l'
      else x :: insertNewestFirst e l'
  end.

(** [.sort({ sendTimestamp: -1 })].  The order of records with equal send
    times is the store's business; here they keep their order. *)
Definition sortNewestFirst (l : list Email) : list Email :=
  fold_right insertNewestFirst [] l.

(** The handler of [GET /], after [requireAuth]. *)
Definition listEmails (user : IUser) : M EmailReply :=
  w <- get_world ;;
  ret (EmailList
         (sortNewestFirst
            (filter (fun e => String.eqb (email_userId e) (user_id user))
                    (emails w)))).

(** The handler of [GET /:id], after [requireAuth] and the check of the
    identifier's format. *)
Definition getEmail (user : IUser) (id : string) : M EmailReply :=
  w <- get_world ;;
  match find (ownedEmail user id) (emails w) with
  | Some email => ret (EmailData email)
  | None => ret EmailNotFound
  end.

(** The handler of [DELETE /:id]: [Email.findOneAndDelete]. *)
Definition deleteEmail (user : IUser) (id : string) : M EmailReply :=
  w <- get_world ;;
  match find (ownedEmail user id) (emails w) with
  | Some email =>
      modify (with_emails (removeFirst (ownedEmail user id) (emails w))) ;;;
      ret EmailDeleted
  | None => ret EmailNotFound
  end.

(** *** Per-recipient analytics ([routes/tracking.ts]) *)

Fixpoint insertOldestFirst (ev : EmailTracking) (l : list EmailTracking)
  : list EmailTracking :=
  match l with
  | [] => [ev]
  | x :: l' =>
      if (meta_timestamp ev <=? meta_timestamp x)%Z then ev :: x :: l'
      else x :: insertOldestFirst ev l'
  end.

(** [EmailTracking.find({ emailId }).sort({ timestamp: 1 })].  A row's
    time is the clock reading of the request that wrote it. *)
Definition findEventsOf (emailId : string) (w : World) : list EmailTracking :=
  fold_right insertOldestFirst []
    (filter (fun ev => String.eqb (ev_emailId ev) emailId) (events w)).

Definition isType (type : EventType) (ev : EmailTracking) : bool :=
  match eventType ev, type with
  | open, open | click, click | reply, reply | forward, forward => true
  | _, _ => false
  end.

Definition forRecipient (recipient : string) (ev : EmailTracking) : bool :=
  match recipientEmail ev with
  | Some r => String.eqb r recipient
  | None => false
  end.

Definition firstTime (l : list EmailTracking) : option Z :=
  option_map meta_timestamp (head l).

Definition lastTime (l : list EmailTracking) : option Z :=
  option_map meta_timestamp (head (rev l)).

Record RecipientStat := {
  stat_email : string;
  opened : bool;
  openCount : nat;
  firstOpenAt : option Z;
  lastOpenAt : option Z;
  clicked : bool;
  clickCount : nat;
  firstClickAt : option Z;
  lastClickAt : option Z;
  stat_events : list EmailTracking
}.

(** The callback of [allRecipients.map] in the handler. *)
Definition recipientStat (trackingEvents : list EmailTracking)
    (recipient : string) : RecipientStat :=
  let recipientEvents := filter (forRecipient recipient) trackingEvents in
  let opens := filter (isType open) recipientEvents in
  let clicks := filter (isType click) recipientEvents in
  {| stat_email := recipient;
     opened := (0 <? List.length opens)%nat;
     openCount := List.length opens;
     firstOpenAt := firstTime opens;
     lastOpenAt := lastTime opens;
     clicked := (0 <? List.length clicks)%nat;
     clickCount := List.length clicks;
     firstClickAt := firstTime clicks;
     lastClickAt := lastTime clicks;
     stat_events := recipientEvents |}.

Record RecipientsReport := {
  report_emailId : string;
  report_subject : string;
  report_sentAt : Z;
  totalRecipients : nat;
  openedCount : nat;
  clickedCount : nat;
  recipientStats : list RecipientStat
}.

(** The handler of [GET /analytics/:emailId/recipients], after
    [requireAuth]; [None] is the 404 answer.  The two percentages of the
    answer are renderings of floating-point quotients and are not part of
    the report here. *)
Definition recipientAnalytics (user : IUser) (emailId : string)
  : M (option RecipientsReport) :=
  w <- get_world ;;
  match find (ownedEmail user emailId) (emails w) with
  | None => ret None
  | Some email =>
      let allRecipients :=
        (email_to email ++ email_cc email ++ email_bcc email)%list in
      let trackingEvents := findEventsOf emailId w in
      let recipientStats := map (recipientStat trackingEvents) allRecipients in
      ret (Some
             {| report_emailId := email_id email;
                report_subject := email_subject email;
                report_sentAt := sendTimestamp email;
                totalRecipients := List.length allRecipients;
                openedCount := List.length (filter opened recipientStats);
                clickedCount := List.length (filter clicked recipientStats);
                recipientStats := recipientStats |})
  end.

(** ** Notions for the further statements *)

(** No position of [s] begins a match of the URL expression. *)
Fixpoint noUrl (s : string) : bool :=
  negb (Regex.urlStartsAt s)
  && match s with
     | EmptyString => true
     | String _ s' => noUrl s'
     end.

(** No position of [s] begins a delimiter of the URL expression. *)
Fixpoint noDelim (s : string) : bool :=
  negb (Regex.delimAt s)
  && match s with
     | EmptyString => true
     | String _ s' => noDelim s'
     end.

(** The alphabet of URL-safe base64 without padding. *)
Definition base64urlChar (c : ascii) : bool :=
  isDigit c || isUpper c || isLower c || Ascii.eqb c "-"%char
  || Ascii.eqb c "_"%char.

Definition notDollar (c : ascii) : bool := negb (Ascii.eqb c dollar).

Definition notAt (c : ascii) : bool := negb (Ascii.eqb c atSign).

(** No position of [s] begins white space. *)
Fixpoint noSpace (s : string) : bool :=
  negb (spaceAt s)
  && match s with
     | EmptyString => true
     | String _ s' => noSpace s'
     end.

(** The text [createGmailMessage] encodes. *)
Definition gmailMessageText (clock : Z) (rand : string)
    (emailData : SendEmailRequest) : string :=
  let message := "To: " ++ String.concat ", " (to emailData) ++ CRLF in
  let message :=
    if nonEmptyList (cc emailData)
    then message ++ "Cc: " ++ String.concat ", " (orEmpty (cc emailData))
                 ++ CRLF
    else message in
  let message :=
    if nonEmptyList (bcc emailData)
    then message ++ "Bcc: " ++ String.concat ", " (orEmpty (bcc emailData))
                 ++ CRLF
    else message in
  let message := message ++ "Subject: " ++ subject emailData ++ CRLF in
  let message := message ++ "MIME-Version: 1.0" ++ CRLF in
  if truthyOpt (htmlBody emailData) then
    let boundary := "boundary_" ++ string_of_Z clock ++ "_" ++ rand in
    message
      ++ "Content-Type: multipart/alternative; boundary=" ++ DQ
      ++ boundary ++ DQ ++ CRLF ++ CRLF
      ++ "--" ++ boundary ++ CRLF
      ++ "Content-Type: text/plain; charset=UTF-8" ++ CRLF ++ CRLF
      ++ body emailData ++ CRLF ++ CRLF
      ++ "--" ++ boundary ++ CRLF
      ++ "Content-Type: text/html; charset=UTF-8" ++ CRLF ++ CRLF
      ++ orEmptyString (htmlBody emailData) ++ CRLF ++ CRLF
      ++ "--" ++ boundary ++ "--" ++ CRLF
  else
    message ++ "Content-Type: text/plain; charset=UTF-8" ++ CRLF ++ CRLF
      ++ body emailData.

(** The user has a connection to the provider, and it carries an access
    token. *)
Definition connectedWithToken (p : OAuthProvider) (user : IUser) : bool :=
  match find (fun conn => OAuthProvider_eqb (conn_provider conn) p)
             (connectedProviders user) with
  | Some conn => truthy (accessToken conn)
  | None => false
  end.

(** The alphabet of base64, and the padding character. *)
Definition base64Char (c : ascii) : bool :=
  isDigit c || isUpper c || isLower c || Ascii.eqb c "+"%char
  || Ascii.eqb c "/"%char.

Definition isPad (c : ascii) : bool := Ascii.eqb c "="%char.

(** The encoding is a run of characters of the alphabet followed by at
    most two padding characters. *)
Definition encodedShape (s : string) : Prop :=
  exists core pad : string,
    Base64.mapChars Base64.urlChar (Base64.encode s) = core ++ pad
    /\ allChars base64urlChar core = true
    /\ allChars isPad pad = true.

(** The request the [POST /send] handler hands to the dispatch. *)
Definition dispatchedRequest (reqBody : SendEmailRequest)
  : SendEmailRequest :=
  {| to := to reqBody;
     cc := Some (orEmpty (cc reqBody));
     bcc := Some (orEmpty (bcc reqBody));
     subject := subject reqBody;
     body := body reqBody;
     htmlBody := htmlBody reqBody;
     provider := provider reqBody |}.

(** The order of a list from the newest send to the oldest. *)
Definition newerFirst (a b : Email) : Prop :=
  (sendTimestamp b <= sendTimestamp a)%Z.

(** The rows of one kind stored for an email and a recipient. *)
Definition storedRows (type : EventType) (emailId recipient : string)
    (w : World) : list EmailTracking :=
  filter (fun ev =>
            String.eqb (ev_emailId ev) emailId && forRecipient recipient ev
            && isType type ev)
         (events w).

(** What the per-recipient report says of one recipient agrees with the
    stored rows. *)
Definition statAgrees (emailId : string) (w : World) (st : RecipientStat)
  : Prop :=
  openCount st
  = List.length (storedRows open emailId (stat_email st) w)
  /\ clickCount st
     = List.length (storedRows click emailId (stat_email st) w)
  /\ (opened st = true <-> (0 < openCount st)%nat)
  /\ (clicked st = true <-> (0 < clickCount st)%nat).

(** The account a mail provider is reached through. *)
Definition accountOf (p : MailProvider) : OAuthProvider :=
  match p with gmail => google | outlook => microsoft end.

(** The characters of the addresses the email schema admits, the at sign
    apart: letters, digits, the underscore, the dot and the hyphen. *)
Definition addressChar (c : ascii) : bool :=
  isWord c || Ascii.eqb c dot || Ascii.eqb c "-"%char.

(** Further sample data. *)
Module Fixture.

Definition otherUser : IUser :=
  {| user_id := "u2"; connectedProviders := [] |}.

Definition secondEmail : Email :=
  {| email_id := "64b7f0c2a19";
     email_userId := "u2";
     email_messageId := None;
     email_subject := "Other";
     email_to := ["dave@example.com"];
     email_cc := [];
     email_bcc := [];
     email_body := "Hi";
     email_htmlBody := None;
     sendTimestamp := 2000;
     status := failed;
     email_provider := outlook;
     email_trackingId := "64b7f0c2a18";
     error := None |}.

(** The sample world with a second user's email beside the first. *)
Definition twoUsers : World :=
  with_emails [Sample.sentEmail; secondEmail] Sample.sentWorld.

End Fixture.

(** ** Proof steps used repeatedly *)

Ltac each_byte c :=
  destruct c as [[] [] [] [] [] [] [] []]; vm_compute; try reflexivity.

Ltac run_transport :=
  unfold transportOf, sendGmailEmail, sendOutlookEmail, bind, tryCatch,
    modify, get_world, gmail_users_messages_send;
  repeat (cbn;
          match goal with
          | |- context [find ?f ?l] => destruct (find f l)
          | |- context [truthy ?s] => destruct (truthy s)
          | |- context [gmailApi ?w ?n ?r] => destruct (gmailApi w n r)
          | |- context [message ?e] => destruct (message e)
          | |- context [includes ?a ?b] => destruct (includes a b)
          | |- context [codeIs ?n ?c] => destruct (codeIs n c)
          end);
  cbn; try reflexivity.

Ltac route_cases path :=
  destruct (dropTrailingEmpty (splitOn slash path))
    as [|s0 [|s1 [|s2 [|s3 [|s4 [|s5 [|s6 [|s7 rest]]]]]]]].

(** * Properties *)

(** ** Strings *)

Lemma append_assoc (a b c : string) : (a ++ b) ++ c = a ++ (b ++ c).
Proof. induction a as [|x a IH]; simpl; [reflexivity | now rewrite IH]. Qed.

Lemma append_nil_r (a : string) : a ++ EmptyString = a.
Proof. induction a as [|x a IH]; simpl; [reflexivity | now rewrite IH]. Qed.

Lemma list_ascii_of_append (a b : string) :
  list_ascii_of_string (a ++ b)
  = (list_ascii_of_string a ++ list_ascii_of_string b)%list.
Proof. induction a as [|x a IH]; simpl; [reflexivity | now rewrite IH]. Qed.

Lemma list_ascii_inj (a b : string) :
  list_ascii_of_string a = list_ascii_of_string b -> a = b.
Proof.
  intro H.
  rewrite <- (string_of_list_ascii_of_string a),
          <- (string_of_list_ascii_of_string b).
  now rewrite H.
Qed.

Lemma append_inv_tail (a b c : string) : a ++ c = b ++ c -> a = b.
Proof.
  intro H. apply list_ascii_inj.
  apply (f_equal list_ascii_of_string) in H.
  rewrite !list_ascii_of_append in H.
  now apply List.app_inv_tail in H.
Qed.

Lemma truthy_true (s : string) : truthy s = true <-> s <> EmptyString.
Proof. destruct s; simpl; split; congruence. Qed.

Lemma or_else_truthy (a b : string) :
  truthy b = true -> truthy (or_else a b) = true.
Proof. unfold or_else. destruct (truthy a) eqn:E; auto. Qed.

Lemma allChars_append (p : ascii -> bool) (a b : string) :
  allChars p (a ++ b) = allChars p a && allChars p b.
Proof.
  induction a as [|x a IH]; simpl; [reflexivity |].
  now rewrite IH, andb_assoc.
Qed.

(** ** The percent codec *)

Lemma hex_roundtrip (c : ascii) :
  hexValue (hexDigit (codeOf c / 16)) = Some (codeOf c / 16)%N
  /\ hexValue (hexDigit (codeOf c mod 16)) = Some (codeOf c mod 16)%N
  /\ ascii_of_N (16 * (codeOf c / 16) + codeOf c mod 16) = c.
Proof. each_byte c; repeat split. Qed.

Lemma unreserved_not_percent (c : ascii) :
  isUnreserved c = true -> Ascii.eqb c percent = false.
Proof. each_byte c; intro H; discriminate H. Qed.

Lemma unreserved_pathChar (c : ascii) :
  isUnreserved c = true -> pathChar c = true.
Proof. each_byte c; intro H; discriminate H. Qed.

Lemma hexDigit_pathChar (c : ascii) :
  pathChar (hexDigit (codeOf c / 16)) = true
  /\ pathChar (hexDigit (codeOf c mod 16)) = true.
Proof. each_byte c; split; reflexivity. Qed.

Lemma segmentChar_pathChar (c : ascii) :
  segmentChar c = true -> pathChar c = true /\ Ascii.eqb c percent = false.
Proof. each_byte c; intro H; (discriminate H || (split; reflexivity)). Qed.

Lemma pathChar_split (c : ascii) :
  pathChar c = true -> queryFree c = true /\ Ascii.eqb c slash = false.
Proof. each_byte c; intro H; (discriminate H || (split; reflexivity)). Qed.

(** Decoding undoes encoding. *)
Lemma decode_encode (s : string) :
  decodeURIComponent (encodeURIComponent s) = Some s.
Proof.
  induction s as [|c s IH]; [reflexivity |].
  cbn [encodeURIComponent]. unfold encodeByte.
  destruct (isUnreserved c) eqn:U.
  - cbn [append decodeURIComponent].
    rewrite (unreserved_not_percent c U), IH. reflexivity.
  - cbn [append decodeURIComponent].
    replace (Ascii.eqb percent percent) with true by reflexivity.
    destruct (hex_roundtrip c) as (H1 & H2 & H3).
    rewrite H1, H2, IH. cbn [option_map]. now rewrite H3.
Qed.

Lemma encodeURIComponent_inj (a b : string) :
  encodeURIComponent a = encodeURIComponent b -> a = b.
Proof.
  intro H. apply (f_equal decodeURIComponent) in H.
  rewrite !decode_encode in H. now injection H.
Qed.

Lemma encode_truthy (s : string) :
  truthy s = true -> truthy (encodeURIComponent s) = true.
Proof.
  destruct s as [|c s]; [discriminate |]. intros _.
  cbn [encodeURIComponent]. unfold encodeByte.
  destruct (isUnreserved c); reflexivity.
Qed.

Lemma encode_pathChars (s : string) :
  allChars pathChar (encodeURIComponent s) = true.
Proof.
  induction s as [|c s IH]; [reflexivity |].
  cbn [encodeURIComponent]. rewrite allChars_append, IH, andb_true_r.
  unfold encodeByte. destruct (isUnreserved c) eqn:U.
  - cbn. now rewrite (unreserved_pathChar c U).
  - destruct (hexDigit_pathChar c) as [H1 H2].
    cbn. now rewrite H1, H2.
Qed.

Lemma allChars_impl (p q : ascii -> bool) (s : string) :
  (forall c, p c = true -> q c = true) ->
  allChars p s = true -> allChars q s = true.
Proof.
  intro H. induction s as [|c s IH]; simpl; [reflexivity |].
  intro E. apply andb_true_iff in E as [E1 E2].
  now rewrite (H c E1), (IH E2).
Qed.

Lemma decode_plain (s : string) :
  allChars segmentChar s = true -> decodeURIComponent s = Some s.
Proof.
  induction s as [|c s IH]; simpl; [reflexivity |].
  intro E. apply andb_true_iff in E as [E1 E2].
  destruct (segmentChar_pathChar c E1) as [_ P].
  now rewrite P, (IH E2).
Qed.

Lemma decode_truthy (s p : string) :
  truthy s = true -> decodeURIComponent s = Some p -> truthy p = true.
Proof.
  destruct s as [|c s]; [discriminate |]. intros _. simpl.
  destruct (Ascii.eqb c percent).
  - destruct s as [|h [|l rest]]; try discriminate.
    destruct (hexValue h), (hexValue l); try discriminate.
    destruct (decodeURIComponent rest); simpl; intro H; inversion H.
    reflexivity.
  - destruct (decodeURIComponent s); simpl; intro H; inversion H.
    reflexivity.
Qed.

Lemma decodeParam_truthy (seg p : string) :
  decodeParam seg = Some p -> truthy p = true.
Proof.
  unfold decodeParam. destruct (truthy seg) eqn:E; [| discriminate].
  now apply decode_truthy.
Qed.

(** ** Paths and their segments *)

Lemma stripPrefix_append (p s : string) : stripPrefix p (p ++ s) = Some s.
Proof.
  induction p as [|c p IH]; simpl; [reflexivity |].
  now rewrite Ascii.eqb_refl.
Qed.

Lemma cutQuery_append (a b : string) :
  allChars queryFree a = true -> cutQuery (a ++ b) = a ++ cutQuery b.
Proof.
  induction a as [|c a IH]; simpl; [reflexivity |].
  intro E. apply andb_true_iff in E as [E1 E2].
  unfold queryFree in E1. apply negb_true_iff in E1. rewrite E1.
  now rewrite (IH E2).
Qed.

Lemma cutQuery_plain (a : string) :
  allChars queryFree a = true -> cutQuery a = a.
Proof.
  intro E. rewrite <- (append_nil_r a) at 1.
  rewrite (cutQuery_append a EmptyString E). simpl. apply append_nil_r.
Qed.

Lemma splitOn_plain (a : string) :
  allChars pathChar a = true -> splitOn slash a = [a].
Proof.
  induction a as [|c a IH]; simpl; [reflexivity |].
  intro E. apply andb_true_iff in E as [E1 E2].
  destruct (pathChar_split c E1) as [_ S]. rewrite S.
  now rewrite (IH E2).
Qed.

Lemma splitOn_segment (a b : string) :
  allChars pathChar a = true ->
  splitOn slash (a ++ String slash b) = a :: splitOn slash b.
Proof.
  induction a as [|c a IH]; simpl.
  - reflexivity.
  - intro E. apply andb_true_iff in E as [E1 E2].
    destruct (pathChar_split c E1) as [_ S]. rewrite S.
    now rewrite (IH E2).
Qed.

Lemma dropTrailingEmpty_keep (pre : list string) (x : string) :
  truthy x = true ->
  dropTrailingEmpty (pre ++ [x])%list = (pre ++ [x])%list.
Proof.
  intro T. destruct x as [|c x]; [discriminate |].
  induction pre as [|y pre IH]; [reflexivity |].
  destruct pre as [|z pre].
  - reflexivity.
  - change (dropTrailingEmpty (y :: (z :: pre) ++ [String c x])%list
            = (y :: (z :: pre) ++ [String c x])%list).
    remember ((z :: pre) ++ [String c x])%list as l eqn:E.
    destruct l as [|a [|b l]].
    + discriminate E.
    + destruct pre; discriminate E.
    + destruct a as [|a0 a].
      * change (y :: dropTrailingEmpty (EmptyString :: b :: l) = y :: EmptyString :: b :: l).
        now rewrite IH.
      * change (y :: dropTrailingEmpty (String a0 a :: b :: l)
                = y :: String a0 a :: b :: l).
        now rewrite IH.
Qed.

Lemma requestPath_built (appUrl rest : string) :
  allChars queryFree rest = true ->
  requestPath appUrl (appUrl ++ rest) = Some rest.
Proof.
  intro E. unfold requestPath.
  now rewrite stripPrefix_append; cbn [option_map]; rewrite cutQuery_plain.
Qed.

Lemma pathChar_queryFree (s : string) :
  allChars pathChar s = true -> allChars queryFree s = true.
Proof. apply allChars_impl. intros c H. now apply pathChar_split in H. Qed.

Lemma plainSegment_spec (s : string) :
  plainSegment s = true ->
  truthy s = true /\ allChars pathChar s = true
  /\ decodeParam s = Some s.
Proof.
  unfold plainSegment. intro E. apply andb_true_iff in E as [T A].
  repeat split; [exact T | |].
  - revert A. apply allChars_impl. intros c H.
    now apply segmentChar_pathChar in H.
  - unfold decodeParam. rewrite T. now apply decode_plain.
Qed.

Lemma decodeParam_encode (s : string) :
  truthy s = true -> decodeParam (encodeURIComponent s) = Some s.
Proof.
  intro T. unfold decodeParam. rewrite (encode_truthy s T).
  apply decode_encode.
Qed.

Lemma parse_pixel_path (trackingId recipient : string) :
  plainSegment trackingId = true -> truthy recipient = true ->
  parsePixelRequest
    ("/api/tracking/pixel/" ++ trackingId ++ "/"
       ++ encodeURIComponent recipient)
  = Params (trackingId, recipient).
Proof.
  intros P T. destruct (plainSegment_spec _ P) as (Tt & At & Dt).
  unfold parsePixelRequest.
  assert (S : splitOn slash
                ("/api/tracking/pixel/" ++ trackingId ++ "/"
                   ++ encodeURIComponent recipient)
              = ([EmptyString ; "api"; "tracking"; "pixel"; trackingId]
                   ++ [encodeURIComponent recipient])%list).
  { cbn [append splitOn Ascii.eqb Bool.eqb slash].
    change (String "/" (encodeURIComponent recipient))
      with (String slash (encodeURIComponent recipient)).
    rewrite (splitOn_segment _ _ At).
    rewrite (splitOn_plain _ (encode_pathChars recipient)).
    reflexivity. }
  rewrite S, (dropTrailingEmpty_keep _ _ (encode_truthy _ T)).
  cbn [List.app]. rewrite Tt, (encode_truthy _ T), Dt.
  rewrite (decodeParam_encode _ T). reflexivity.
Qed.

Lemma parse_click_path (trackingId url recipient : string) :
  plainSegment trackingId = true -> truthy url = true ->
  truthy recipient = true ->
  parseClickRequest
    ("/api/tracking/click/" ++ trackingId ++ "/" ++ encodeURIComponent url
       ++ "/" ++ encodeURIComponent recipient)
  = Params (trackingId, url, recipient).
Proof.
  intros P U T. destruct (plainSegment_spec _ P) as (Tt & At & Dt).
  unfold parseClickRequest.
  assert (S : splitOn slash
                ("/api/tracking/click/" ++ trackingId ++ "/"
                   ++ encodeURIComponent url ++ "/"
                   ++ encodeURIComponent recipient)
              = ([EmptyString ; "api"; "tracking"; "click"; trackingId;
                  encodeURIComponent url]
                   ++ [encodeURIComponent recipient])%list).
  { cbn [append splitOn Ascii.eqb Bool.eqb slash].
    change (String "/" (encodeURIComponent url
                          ++ String "/" (encodeURIComponent recipient)))
      with (String slash (encodeURIComponent url
                          ++ String slash (encodeURIComponent recipient))).
    rewrite (splitOn_segment _ _ At).
    rewrite (splitOn_segment _ _ (encode_pathChars url)).
    rewrite (splitOn_plain _ (encode_pathChars recipient)).
    reflexivity. }
  rewrite S, (dropTrailingEmpty_keep _ _ (encode_truthy _ T)).
  cbn [List.app].
  rewrite Tt, (encode_truthy _ T), (encode_truthy _ U), Dt.
  rewrite (decodeParam_encode _ T), (decodeParam_encode _ U). reflexivity.
Qed.

Lemma built_path_queryFree (lit a b : string) :
  allChars queryFree lit = true -> allChars pathChar a = true ->
  allChars queryFree b = true ->
  allChars queryFree (lit ++ a ++ "/" ++ b) = true.
Proof.
  intros L A B.
  now rewrite !allChars_append, L, (pathChar_queryFree _ A), B.
Qed.

(** ** Tracking URLs: parsing is a left inverse of building *)

(** C7, as amended.  For every tracking id that is not empty and contains
    no slash, question mark, hash or percent sign (the identifiers the
    application mints are hexadecimal), every non-empty recipient address
    and every non-empty destination URL, whatever reserved characters the
    address and the URL contain: the parameters read from the path of the
    built pixel URL are exactly the tracking id and the address, and those
    read from the path of the built click URL are exactly the tracking id,
    the destination URL and the address. *)
Theorem tracking_url_roundtrip :
  forall (config : EnvironmentConfig)
         (trackingId recipientEmail destinationUrl : string),
    plainSegment trackingId = true ->
    recipientEmail <> EmptyString ->
    destinationUrl <> EmptyString ->
    option_map parsePixelRequest
      (requestPath (APP_URL config)
         (trackingPixelUrl config trackingId recipientEmail))
    = Some (Params (trackingId, recipientEmail))
    /\
    option_map parseClickRequest
      (requestPath (APP_URL config)
         (trackingUrl config trackingId recipientEmail destinationUrl))
    = Some (Params (trackingId, destinationUrl, recipientEmail)).
Proof.
  intros config trackingId recipientEmail destinationUrl P R U.
  apply truthy_true in R. apply truthy_true in U.
  destruct (plainSegment_spec _ P) as (_ & At & _).
  pose proof (encode_pathChars recipientEmail) as Er.
  pose proof (encode_pathChars destinationUrl) as Eu.
  unfold trackingPixelUrl, trackingUrl. split.
  - rewrite requestPath_built.
    + cbn [option_map]. now rewrite parse_pixel_path.
    + apply built_path_queryFree;
        [reflexivity | exact At | now apply pathChar_queryFree].
  - rewrite requestPath_built.
    + cbn [option_map]. now rewrite parse_click_path.
    + apply built_path_queryFree; [reflexivity | exact At |].
      rewrite !allChars_append.
      now rewrite (pathChar_queryFree _ Er), (pathChar_queryFree _ Eu).
Qed.

Lemma tracking_url_roundtrip_witness :
  option_map parsePixelRequest
    (requestPath (APP_URL Sample.config)
       (trackingPixelUrl Sample.config "64b7f0c2a10" "o'neil+x@ex.com/?&"))
  = Some (Params ("64b7f0c2a10", "o'neil+x@ex.com/?&"))
  /\
  option_map parseClickRequest
    (requestPath (APP_URL Sample.config)
       (trackingUrl Sample.config "64b7f0c2a10" "o'neil+x@ex.com/?&"
          "https://example.com/a/b?c=d&e=f@g"))
  = Some (Params ("64b7f0c2a10", "https://example.com/a/b?c=d&e=f@g",
                  "o'neil+x@ex.com/?&")).
Proof.
  apply (tracking_url_roundtrip Sample.config "64b7f0c2a10"
           "o'neil+x@ex.com/?&" "https://example.com/a/b?c=d&e=f@g");
    [reflexivity | discriminate | discriminate].
Defined.

(** C7, as stated, fails on a tracking id that contains a slash: the id is
    put in the path as it is, the path then has one segment too many and
    the pixel route does not match it; and on an id with a question mark
    the path ends at the mark. *)
Lemma tracking_url_roundtrip_counterexample :
  option_map parsePixelRequest
    (requestPath (APP_URL Sample.config)
       (trackingPixelUrl Sample.config "a/b" "bob@example.com"))
  <> Some (Params ("a/b", "bob@example.com"))
  /\
  option_map parseClickRequest
    (requestPath (APP_URL Sample.config)
       (trackingUrl Sample.config "a?b" "bob@example.com"
          "https://example.com/"))
  <> Some (Params ("a?b", "https://example.com/", "bob@example.com")).
Proof. split; vm_compute; discriminate. Qed.

(** ** Per-recipient content *)

Lemma allChars_append_slash (a b : string) :
  allChars pathChar (a ++ String slash b) = false.
Proof.
  rewrite allChars_append. cbn [allChars].
  replace (pathChar slash) with false by reflexivity.
  now rewrite andb_false_r.
Qed.

(** Two texts that end with a slash followed by a segment agree on that
    last segment. *)
Lemma last_segment_eq (x y e1 e2 : string) :
  allChars pathChar e1 = true -> allChars pathChar e2 = true ->
  x ++ String slash e1 = y ++ String slash e2 -> e1 = e2.
Proof.
  intros E1 E2. revert y.
  induction x as [|c x IH]; intros [|d y] H; cbn [append] in H.
  - now injection H.
  - injection H as _ H. rewrite H, allChars_append_slash in E1.
    discriminate E1.
  - injection H as _ H. rewrite <- H, allChars_append_slash in E2.
    discriminate E2.
  - injection H as _ H. eauto.
Qed.

Lemma pixel_url_shape (config : EnvironmentConfig)
    (pre trackingId recipient : string) :
  pre ++ trackingPixelUrl config trackingId recipient
  = (pre ++ APP_URL config ++ "/api/tracking/pixel/" ++ trackingId)
      ++ String slash (encodeURIComponent recipient).
Proof.
  unfold trackingPixelUrl. now rewrite !append_assoc.
Qed.

(** C6.  For any two distinct recipients of one dispatch (same tracking
    id, same source message), the rewritten content differs: the HTML
    bodies produced for them are different texts, because the address
    each one embeds in its pixel URL is different.  So are, a fortiori,
    the two rewritten contents as a whole. *)
Theorem recipient_content_differs :
  forall (config : EnvironmentConfig)
         (emailBody trackingId recipientA recipientB : string),
    recipientA <> recipientB ->
    processedHtmlBody
      (processEmailWithRecipientTracking config emailBody trackingId
         recipientA)
    <> processedHtmlBody
         (processEmailWithRecipientTracking config emailBody trackingId
            recipientB)
    /\
    processEmailWithRecipientTracking config emailBody trackingId recipientA
    <> processEmailWithRecipientTracking config emailBody trackingId
         recipientB.
Proof.
  intros config emailBody trackingId a b D.
  assert (H : processedHtmlBody
                (processEmailWithRecipientTracking config emailBody
                   trackingId a)
              <> processedHtmlBody
                   (processEmailWithRecipientTracking config emailBody
                      trackingId b)).
  { cbn [processEmailWithRecipientTracking processedHtmlBody]. intro E.
    apply D, encodeURIComponent_inj.
    rewrite <- !(append_assoc _ _ htmlTail) in E.
    rewrite <- !(append_assoc _ htmlMiddle) in E.
    rewrite <- !(append_assoc htmlHead) in E.
    apply append_inv_tail in E.
    rewrite !pixel_url_shape in E.
    eapply last_segment_eq; [| | exact E]; apply encode_pathChars. }
  split; [exact H |].
  intro E. apply H. now rewrite E.
Qed.

Lemma recipient_content_differs_witness :
  processedHtmlBody
    (processEmailWithRecipientTracking Sample.config
       (body (Sample.request gmail)) Sample.sentTrackingId
       "alice@example.com")
  <> processedHtmlBody
       (processEmailWithRecipientTracking Sample.config
          (body (Sample.request gmail)) Sample.sentTrackingId
          "bob@example.com").
Proof.
  apply (recipient_content_differs Sample.config
           (body (Sample.request gmail)) Sample.sentTrackingId
           "alice@example.com" "bob@example.com").
  discriminate.
Defined.

(** ** The Gmail transport: classification of failures *)

Lemma prefix_spec (p s : string) :
  prefix p s = true <-> exists rest, s = p ++ rest.
Proof.
  revert s. induction p as [|a p IH]; intro s.
  - split; [intros _; now exists s | intros _; now destruct s].
  - destruct s as [|b s]; cbn.
    + split; [discriminate | intros [rest R]; discriminate R].
    + destruct (ascii_dec a b) as [E|N].
      * subst b. rewrite IH. split; intros [rest R]; exists rest.
        -- now rewrite R.
        -- now injection R.
      * split; [discriminate |].
        intros [rest R]. injection R as R1 R2. now elim N.
Qed.

Lemma includes_spec (text word : string) :
  includes text word = true <-> mentions text word.
Proof.
  unfold mentions. split.
  - induction text as [|c text IH]; cbn [includes]; rewrite orb_true_iff.
    + intros [P|P]; [| discriminate P].
      apply prefix_spec in P. destruct P as [rest R].
      now exists EmptyString, rest.
    + intros [P|P].
      * apply prefix_spec in P. destruct P as [rest R].
        now exists EmptyString, rest.
      * destruct (IH P) as [before [after R]].
        exists (String c before), after. cbn. now rewrite R.
  - intros [before [after R]]. subst text.
    induction before as [|c before IH].
    + assert (P : prefix word (word ++ after) = true)
        by (apply prefix_spec; now exists after).
      cbn [append]. destruct (word ++ after); cbn [includes];
        now rewrite P.
    + cbn [append includes]. rewrite IH. apply orb_true_r.
Qed.

Lemma codeIs_spec (n : Z) (c : option Z) :
  codeIs n c = true <-> c = Some n.
Proof.
  destruct c as [x|]; cbn; [| split; discriminate].
  rewrite Z.eqb_eq. split; [now intros -> | now intros [= ->]].
Qed.

Lemma sendGmailEmail_on_provider_error
    (user : IUser) (emailData : SendEmailRequest) (w : World)
    (conn : IOAuthConnection) (err : JsError) :
  find (fun c => OAuthProvider_eqb (conn_provider c) google)
       (connectedProviders user) = Some conn ->
  truthy (accessToken conn) = true ->
  gmailApi w (List.length (submitted w))
           (createGmailMessage (now w) (random w) emailData) = inl err ->
  fst (sendGmailEmail user emailData w)
  = Threw
      (if codeIs 401 (code err) then Error gmailAuthExpired
       else match message err with
            | None => TypeError "includes"
            | Some text =>
                if includes text "invalid_grant"
                   || includes text "access_token"
                   || includes text "refresh"
                then Error gmailAuthExpired
                else Error ("Failed to send Gmail email: "
                              ++ or_else text "Unknown error")
            end).
Proof.
  intros F T G.
  unfold sendGmailEmail, bind, tryCatch, modify.
  rewrite F, T. cbn [negb].
  unfold bind, get_world, gmail_users_messages_send.
  cbn [record_transportCall submitted gmailApi now random fst snd].
  rewrite G. cbn [fst].
  destruct (codeIs 401 (code err)); [reflexivity |].
  destruct (message err) as [text|]; [| reflexivity].
  destruct (includes text "invalid_grant" || includes text "access_token"
            || includes text "refresh"); reflexivity.
Qed.

Lemma authExpired_not_transportError (e : JsError) :
  AuthExpired e -> TransportError e -> False.
Proof.
  unfold AuthExpired, TransportError. intros A [reason R].
  rewrite A in R. discriminate R.
Qed.

Lemma authWords_spec (text : string) :
  includes text "invalid_grant" || includes text "access_token"
  || includes text "refresh" = true
  <-> exists word, In word authWords /\ mentions text word.
Proof.
  rewrite !orb_true_iff, !includes_spec. unfold authWords. split.
  - intros [[H|H]|H]; eexists; (split; [| exact H]); cbn; auto.
  - intros [word [[E|[E|[E|[]]]] H]]; subst word; auto.
Qed.

(** C8, as the code has it.  When the Gmail API answers a submission with
    an error whose code is 401 or which carries a message, the send
    fails, with [AuthExpired] exactly when the code of the error is 401
    or its message mentions invalid_grant, access_token or refresh, and
    with the generic [TransportError], which quotes the message,
    exactly when neither is the case; no failure is in both classes. *)
Theorem gmail_failure_classification :
  forall (user : IUser) (emailData : SendEmailRequest) (w : World)
         (conn : IOAuthConnection) (err : JsError),
    find (fun c => OAuthProvider_eqb (conn_provider c) google)
         (connectedProviders user) = Some conn ->
    truthy (accessToken conn) = true ->
    gmailApi w (List.length (submitted w))
             (createGmailMessage (now w) (random w) emailData) = inl err ->
    code err = Some 401%Z \/ message err <> None ->
    let signal :=
      code err = Some 401%Z
      \/ exists text word,
           message err = Some text /\ In word authWords
           /\ mentions text word in
    exists thrown : JsError,
      fst (sendGmailEmail user emailData w) = Threw thrown
      /\ (AuthExpired thrown <-> signal)
      /\ (TransportError thrown <-> ~ signal)
      /\ (TransportError thrown ->
          exists text,
            message err = Some text
            /\ message thrown
               = Some ("Failed to send Gmail email: "
                         ++ or_else text "Unknown error"))
      /\ ~ (AuthExpired thrown /\ TransportError thrown).
Proof.
  intros user emailData w conn err F T G H signal.
  rewrite (sendGmailEmail_on_provider_error user emailData w conn err F T G).
  assert (A : AuthExpired (Error gmailAuthExpired)) by reflexivity.
  assert (NT : ~ TransportError (Error gmailAuthExpired))
    by (intro B; exact (authExpired_not_transportError _ A B)).
  destruct (codeIs 401 (code err)) eqn:C.
  - apply codeIs_spec in C.
    assert (S : signal) by (left; exact C).
    eexists. split; [reflexivity |].
    repeat split; try tauto.
  - assert (NC : code err <> Some 401%Z).
    { intro E. apply codeIs_spec in E. rewrite E in C. discriminate C. }
    destruct (message err) as [text|] eqn:Msg;
      [| destruct H as [H|H]; [now elim NC | now elim H]].
    destruct (includes text "invalid_grant" || includes text "access_token"
              || includes text "refresh") eqn:W.
    + apply authWords_spec in W. destruct W as [word [I Mn]].
      assert (S : signal) by (right; now exists text, word).
      eexists. split; [reflexivity |].
      repeat split; try tauto.
    + assert (NS : ~ signal).
      { intros [E|[text' [word [E [I Mn]]]]]; [now elim NC |].
        injection E as <-.
        assert (W' : includes text "invalid_grant"
                     || includes text "access_token"
                     || includes text "refresh" = true)
          by (apply authWords_spec; now exists word).
        rewrite W in W'. discriminate W'. }
      assert (B : TransportError
                    (Error ("Failed to send Gmail email: "
                              ++ or_else text "Unknown error")))
        by (eexists; reflexivity).
      assert (NA : ~ AuthExpired
                     (Error ("Failed to send Gmail email: "
                               ++ or_else text "Unknown error")))
        by (intro A'; exact (authExpired_not_transportError _ A' B)).
      eexists. split; [reflexivity |].
      repeat split; try tauto.
      intros _. now exists text.
Qed.

Lemma gmail_failure_classification_witness :
  exists thrown : JsError,
    fst (sendGmailEmail Sample.user (Sample.request gmail)
           (Sample.answering Sample.quotaExceeded)) = Threw thrown
    /\ AuthExpired thrown.
Proof.
  assert (H : code Sample.quotaExceeded = Some 401%Z
              \/ message Sample.quotaExceeded <> None)
    by (right; discriminate).
  destruct (gmail_failure_classification Sample.user (Sample.request gmail)
              (Sample.answering Sample.quotaExceeded)
              {| conn_provider := google; conn_email := "me@gmail.com";
                 accessToken := "ya29.token"; refreshToken := None |}
              Sample.quotaExceeded eq_refl eq_refl eq_refl H)
    as [thrown [R [[_ A] _]]].
  exists thrown. split; [exact R |].
  apply A. right.
  exists "Quota exceeded, refresh the page later", "refresh".
  split; [reflexivity |]. split; [cbn; auto |].
  now exists "Quota exceeded, ", " the page later".
Defined.

(** C8, as the specification words the signal.  A provider error that
    tells of a quota (status 403, no invalid_grant) is none of an expired
    or invalid token, yet the send fails with [AuthExpired], because the
    message has the word refresh in it; and an error that has the status
    401 on its response only, not as its code, is reported as a
    [TransportError]. *)
Lemma gmail_failure_classification_counterexample :
  (specTokenRejected Sample.quotaExceeded = false
   /\ exists thrown,
        fst (sendGmailEmail Sample.user (Sample.request gmail)
               (Sample.answering Sample.quotaExceeded)) = Threw thrown
        /\ AuthExpired thrown /\ ~ TransportError thrown)
  /\ (let unauthorized :=
        {| message := Some "Request failed with status code 401";
           code := None; response_status := Some 401%Z |} in
      specTokenRejected unauthorized = true
      /\ exists thrown,
           fst (sendGmailEmail Sample.user (Sample.request gmail)
                  (Sample.answering unauthorized)) = Threw thrown
           /\ TransportError thrown /\ ~ AuthExpired thrown).
Proof.
  split.
  - split; [reflexivity |].
    eexists. split; [reflexivity |].
    split; [reflexivity |].
    intro B. eapply authExpired_not_transportError; [| exact B]. reflexivity.
  - split; [reflexivity |].
    eexists. split; [reflexivity |].
    split; [eexists; reflexivity |].
    intro A. discriminate A.
Qed.

(** The failures that arise before any submission are transport errors. *)
Lemma sendGmailEmail_without_connection
    (user : IUser) (emailData : SendEmailRequest) (w : World) :
  find (fun c => OAuthProvider_eqb (conn_provider c) google)
       (connectedProviders user) = None ->
  fst (sendGmailEmail user emailData w)
  = Threw (Error "Failed to send Gmail email: No Google account connected").
Proof.
  intro F. unfold sendGmailEmail, bind, tryCatch, modify. rewrite F.
  reflexivity.
Qed.

Example gmail_network_error_is_transport_error :
  fst (sendGmailEmail Sample.user (Sample.request gmail)
         (at_time 5 {| now := 0; random := "r"; objectIds := fun _ => EmptyString;
                       mintedIds := 0;
                       gmailApi := fun _ _ =>
                         inl {| message := Some "read ECONNRESET";
                                code := None; response_status := None |};
                       urlParses := fun _ => true;
                       submitted := []; transportCalls := [];
                       emails := []; events := [] |}))
  = Threw (Error "Failed to send Gmail email: read ECONNRESET").
Proof. reflexivity. Qed.

(** ** The Outlook transport *)

Lemma sendOutlookEmail_submits_nothing
    (user : IUser) (emailData : SendEmailRequest) (w : World) :
  submitted (snd (sendOutlookEmail user emailData w)) = submitted w.
Proof.
  unfold sendOutlookEmail, bind, tryCatch, modify.
  destruct (find _ (connectedProviders user)) as [c|]; [| reflexivity].
  destruct (truthy (accessToken c)); reflexivity.
Qed.

Lemma sendOutlookEmail_succeeds
    (user : IUser) (emailData : SendEmailRequest) (w : World)
    (conn : IOAuthConnection) :
  find (fun c => OAuthProvider_eqb (conn_provider c) microsoft)
       (connectedProviders user) = Some conn ->
  truthy (accessToken conn) = true ->
  fst (sendOutlookEmail user emailData w)
  = Returned {| messageId :=
                  "outlook_" ++ string_of_Z (now w) ++ "_" ++ random w |}.
Proof.
  intros F T. unfold sendOutlookEmail, bind, tryCatch, modify.
  rewrite F, T. reflexivity.
Qed.

(** The message object is built as the claim describes it. *)
Lemma createOutlookMessage_shape (emailData : SendEmailRequest) :
  let m := createOutlookMessage emailData in
  om_subject m = subject emailData
  /\ toRecipients m = to emailData
  /\ (truthyOpt (htmlBody emailData) = true ->
      om_contentType m = HTML
      /\ Some (om_content m) = htmlBody emailData)
  /\ (truthyOpt (htmlBody emailData) = false ->
      om_contentType m = Text /\ om_content m = body emailData).
Proof.
  cbn. split; [reflexivity |]. split; [reflexivity |].
  split; intro H; rewrite H; split; try reflexivity.
  destruct (htmlBody emailData); [reflexivity | discriminate H].
Qed.

(** C2, on the code.  A message handed to the Outlook transport of a user
    with a connected Microsoft account is reported as sent, under an
    identifier made of the clock and a random text, while nothing was
    submitted to the provider: the list of submissions is as it was. *)
Theorem outlook_send_without_submission :
  let r := sendOutlookEmail Sample.user
             (individualEmailData Sample.config (Sample.request outlook)
                Sample.sentTrackingId "alice@example.com")
             Sample.world in
  fst r = Returned {| messageId := "outlook_1000_k3j9x0q1z" |}
  /\ submitted (snd r) = []
  /\ transportCalls (snd r)
     = [(outlook,
         individualEmailData Sample.config (Sample.request outlook)
           Sample.sentTrackingId "alice@example.com")].
Proof. repeat split. Qed.

(** ** The dispatch loop *)

(** A transport touches the two logs and nothing else. *)
Lemma transport_frame (p : MailProvider) (user : IUser)
    (data : SendEmailRequest) (w : World) :
  let w' := snd (transportOf p user data w) in
  now w' = now w /\ random w' = random w /\ emails w' = emails w
  /\ events w' = events w /\ mintedIds w' = mintedIds w
  /\ objectIds w' = objectIds w.
Proof. destruct p; run_transport; repeat split. Qed.

Lemma transport_call_logged (p : MailProvider) (user : IUser)
    (data : SendEmailRequest) (w : World) :
  transportCalls (snd (transportOf p user data w))
  = (transportCalls w ++ [(p, data)])%list.
Proof. destruct p; run_transport. Qed.

Lemma sendToRecipient_runs (config : EnvironmentConfig) (user : IUser)
    (emailData : SendEmailRequest) (trackingId recipient : string)
    (st : nat * list string) (w : World) :
  sendToRecipient config user emailData trackingId recipient st w
  = let '(o, w') :=
      transportOf (provider emailData) user
        (individualEmailData config emailData trackingId recipient) w in
    (Returned
       match o with
       | Returned response =>
           (S (fst st), (snd st ++ [messageId response])%list)
       | Threw _ => st
       end, w').
Proof.
  unfold sendToRecipient, tryCatch, bind, transportOf.
  destruct (provider emailData);
    match goal with
    | |- context [?f user ?d w] => destruct (f user d w) as [[e|r] w']
    end; reflexivity.
Qed.

Lemma sendLoop_runs (config : EnvironmentConfig) (user : IUser)
    (emailData : SendEmailRequest) (trackingId : string)
    (recipients : list string) :
  forall (st : nat * list string) (w : World),
    sendLoop config user emailData trackingId recipients st w
    = let '(os, w') :=
        runRecipients config user emailData trackingId recipients w in
      (Returned (fst st + List.length (successIds os),
                 (snd st ++ successIds os)%list), w').
Proof.
  induction recipients as [|r rest IH]; intros [n ids] w.
  - cbn. now rewrite Nat.add_0_r, List.app_nil_r.
  - cbn [sendLoop runRecipients]. unfold bind at 1.
    rewrite sendToRecipient_runs.
    destruct (transportOf (provider emailData) user
                (individualEmailData config emailData trackingId r) w)
      as [[e|response] w1].
    + rewrite IH.
      destruct (runRecipients config user emailData trackingId rest w1)
        as [os w2].
      reflexivity.
    + rewrite IH.
      destruct (runRecipients config user emailData trackingId rest w1)
        as [os w2].
      cbn [fst snd successIds List.length].
      now rewrite <- List.app_assoc, Nat.add_succ_r.
Qed.

Lemma sendEmailWithTracking_runs (config : EnvironmentConfig)
    (user : IUser) (emailData : SendEmailRequest) (trackingId : string)
    (w : World) :
  sendEmailWithTracking config user emailData trackingId w
  = let '(os, w') :=
      runRecipients config user emailData trackingId
        (allRecipients emailData) w in
    (Returned
       {| result_messageId :=
            or_else (firstOrEmpty (successIds os))
                    ("bulk_send_" ++ string_of_Z (now w'));
          sentCount := List.length (successIds os) |}, w').
Proof.
  unfold sendEmailWithTracking. unfold bind at 1. rewrite sendLoop_runs.
  destruct (runRecipients config user emailData trackingId
              (allRecipients emailData) w) as [os w'].
  reflexivity.
Qed.

Lemma runRecipients_frame (config : EnvironmentConfig) (user : IUser)
    (emailData : SendEmailRequest) (trackingId : string)
    (recipients : list string) :
  forall w : World,
    let w' :=
      snd (runRecipients config user emailData trackingId recipients w) in
    now w' = now w /\ emails w' = emails w /\ events w' = events w
    /\ mintedIds w' = mintedIds w /\ objectIds w' = objectIds w.
Proof.
  induction recipients as [|r rest IH]; intro w; cbn [runRecipients].
  - repeat split.
  - pose proof (transport_frame (provider emailData) user
                  (individualEmailData config emailData trackingId r) w)
      as F.
    destruct (transportOf (provider emailData) user
                (individualEmailData config emailData trackingId r) w)
      as [o w1].
    specialize (IH w1).
    destruct (runRecipients config user emailData trackingId rest w1)
      as [os w2].
    cbn [snd] in *.
    destruct F as (F1 & _ & F3 & F4 & F5 & F6).
    destruct IH as (I1 & I3 & I4 & I5 & I6).
    repeat split; congruence.
Qed.

Lemma runRecipients_calls (config : EnvironmentConfig) (user : IUser)
    (emailData : SendEmailRequest) (trackingId : string)
    (recipients : list string) :
  forall w : World,
    transportCalls
      (snd (runRecipients config user emailData trackingId recipients w))
    = (transportCalls w
         ++ map (fun r =>
                   (provider emailData,
                    individualEmailData config emailData trackingId r))
                recipients)%list.
Proof.
  induction recipients as [|r rest IH]; intro w; cbn [runRecipients map].
  - cbn. now rewrite List.app_nil_r.
  - pose proof (transport_call_logged (provider emailData) user
                  (individualEmailData config emailData trackingId r) w)
      as L.
    destruct (transportOf (provider emailData) user
                (individualEmailData config emailData trackingId r) w)
      as [o w1].
    specialize (IH w1).
    destruct (runRecipients config user emailData trackingId rest w1)
      as [os w2].
    cbn [snd] in *. rewrite IH, L. now rewrite <- List.app_assoc.
Qed.

Lemma successIds_none (os : list (Outcome SendResult)) :
  forallb isFailure os = true -> successIds os = [].
Proof.
  induction os as [|[e|r] os IH]; cbn; auto. discriminate.
Qed.

Lemma attemptSend_runs (config : EnvironmentConfig) (user : IUser)
    (emailData : SendEmailRequest) (trackingId : string) (w : World) :
  attemptSend config user emailData trackingId w
  = let '(os, w') :=
      runRecipients config user emailData trackingId
        (allRecipients emailData) w in
    (Returned
       {| att_messageId :=
            Some (or_else (firstOrEmpty (successIds os))
                          ("bulk_send_" ++ string_of_Z (now w')));
          att_status :=
            if (0 <? List.length (successIds os))%nat then sent else failed;
          att_error := None;
          att_sentCount := List.length (successIds os) |}, w').
Proof.
  unfold attemptSend, tryCatch. unfold bind at 1.
  rewrite sendEmailWithTracking_runs.
  destruct (runRecipients config user emailData trackingId
              (allRecipients emailData) w) as [os w'].
  reflexivity.
Qed.

Lemma postSend_runs (config : EnvironmentConfig) (user : IUser)
    (reqBody : SendEmailRequest) (w : World) :
  let trackingId := objectIds w (mintedIds w) in
  let emailData := dispatchedRequest reqBody in
  let run :=
    runRecipients config user emailData trackingId
      (allRecipients emailData) (mint_id w) in
  let n := List.length (successIds (fst run)) in
  let _id := objectIds w (S (mintedIds w)) in
  let response :=
    {| res_status := if (0 <? n)%nat then 200%Z else 500%Z;
       res_success := (0 <? n)%nat;
       res_error :=
         if (0 <? n)%nat then None else Some "Failed to send email";
       res_emailId := _id;
       res_trackingId := trackingId;
       res_sentCount := n |} in
  let stored :=
    {| email_id := _id;
       email_userId := user_id user;
       email_messageId :=
         Some (or_else (firstOrEmpty (successIds (fst run)))
                       ("bulk_send_" ++ string_of_Z (now w)));
       email_subject := trim (subject reqBody);
       email_to := map normalizeAddress (to reqBody);
       email_cc := map normalizeAddress (orEmpty (cc reqBody));
       email_bcc := map normalizeAddress (orEmpty (bcc reqBody));
       email_body := body reqBody;
       email_htmlBody := htmlBody reqBody;
       sendTimestamp := now w;
       status := if (0 <? n)%nat then sent else failed;
       email_provider := provider reqBody;
       email_trackingId := trackingId;
       error := None |} in
  postSend config user reqBody w
  = if storable reqBody trackingId
    then (Returned response, save_email stored (mint_id (snd run)))
    else (Threw (ValidationError "Email"), mint_id (snd run)).
Proof.
  intros trackingId emailData run n _id response stored.
  unfold postSend. unfold bind at 1. unfold newObjectId at 1.
  unfold bind at 1.
  change {| to := to reqBody; cc := Some (orEmpty (cc reqBody));
            bcc := Some (orEmpty (bcc reqBody)); subject := subject reqBody;
            body := body reqBody; htmlBody := htmlBody reqBody;
            provider := provider reqBody |} with emailData.
  rewrite attemptSend_runs. fold trackingId.
  pose proof (runRecipients_frame config user emailData trackingId
                (allRecipients emailData) (mint_id w)) as F.
  subst response stored n _id run.
  destruct (runRecipients config user emailData trackingId
              (allRecipients emailData) (mint_id w)) as [os w1].
  cbn [fst snd] in *. destruct F as (F1 & _ & _ & F4 & F5).
  cbn [now mint_id mintedIds objectIds] in F1, F4, F5.
  unfold bind, newObjectId, get_world, saveEmail, ret.
  cbn [att_status att_error att_messageId att_sentCount now mint_id].
  unfold validEmail, preSave, storable.
  cbn [email_subject email_to email_cc email_bcc email_body email_htmlBody
       email_trackingId email_id email_userId email_messageId sendTimestamp
       status email_provider error to cc bcc orEmpty].
  rewrite F1, F4, F5.
  destruct (validContent _ _ _ _ _ _ && truthy trackingId);
    [| reflexivity].
  destruct (0 <? List.length (successIds os))%nat; reflexivity.
Qed.

(** C9, as the code has it.  The dispatch returns normally on every
    input, with a message id that is never empty: the first successful
    provider message id when that id is not the empty text, and the
    placeholder made of the clock reading otherwise, that is when nothing
    was sent or when the first id is empty.  The count is the number of
    successful sends.  Hence the [catch] branch of the caller is never
    taken, and a record the caller stores has no error text. *)
Theorem dispatch_never_raises :
  forall (config : EnvironmentConfig) (user : IUser)
         (emailData : SendEmailRequest) (trackingId : string) (w : World),
    let ids :=
      successIds (recipientOutcomes config user emailData trackingId w) in
    exists (result : TrackedSendResult) (w' : World),
      sendEmailWithTracking config user emailData trackingId w
      = (Returned result, w')
      /\ result_messageId result <> EmptyString
      /\ sentCount result = List.length ids
      /\ (sentCount result = 0%nat ->
          result_messageId result = "bulk_send_" ++ string_of_Z (now w))
      /\ (forall id rest,
            ids = id :: rest -> id <> EmptyString ->
            result_messageId result = id)
      /\ (forall rest,
            ids = EmptyString :: rest ->
            result_messageId result = "bulk_send_" ++ string_of_Z (now w))
      /\ (exists attempt : SendAttempt,
            attemptSend config user emailData trackingId w
            = (Returned attempt, w')
            /\ att_error attempt = None)
      /\ (forall (reqBody : SendEmailRequest) (stored : Email),
            emails (snd (postSend config user reqBody w))
            = (emails w ++ [stored])%list ->
            error stored = None).
Proof.
  intros config user emailData trackingId w ids.
  unfold recipientOutcomes in ids.
  rewrite attemptSend_runs, sendEmailWithTracking_runs.
  pose proof (runRecipients_frame config user emailData trackingId
                (allRecipients emailData) w) as F.
  subst ids.
  destruct (runRecipients config user emailData trackingId
              (allRecipients emailData) w) as [os w'].
  cbn [fst snd] in *. destruct F as (N & _).
  do 2 eexists. split; [reflexivity |].
  cbn [result_messageId sentCount]. rewrite N.
  split; [| split; [reflexivity | split; [| split; [| split; [| split]]]]].
  - apply truthy_true, or_else_truthy. reflexivity.
  - destruct (successIds os); [reflexivity | discriminate].
  - intros id rest E A. rewrite E. cbn [firstOrEmpty].
    unfold or_else. apply truthy_true in A. now rewrite A.
  - intros rest E. rewrite E. reflexivity.
  - eexists. split; reflexivity.
  - intros reqBody stored.
    rewrite postSend_runs.
    pose proof (runRecipients_frame config user (dispatchedRequest reqBody)
                  (objectIds w (mintedIds w))
                  (allRecipients (dispatchedRequest reqBody)) (mint_id w))
      as (_ & F2 & _).
    destruct (storable reqBody (objectIds w (mintedIds w)));
      cbn [snd emails save_email mint_id] in *; rewrite F2; intro E.
    + apply List.app_inv_head in E. injection E as <-. reflexivity.
    + exfalso. rewrite <- (List.app_nil_r (emails w)) in E at 1.
      apply List.app_inv_head in E. discriminate E.
Qed.

Lemma dispatch_never_raises_witness :
  exists (result : TrackedSendResult) (w' : World),
    sendEmailWithTracking Sample.config Sample.user
      (Sample.dispatched gmail) Sample.sentTrackingId Sample.world
    = (Returned result, w')
    /\ result_messageId result = "18c2f0"
    /\ sentCount result = 3%nat.
Proof.
  destruct (dispatch_never_raises Sample.config Sample.user
              (Sample.dispatched gmail) Sample.sentTrackingId Sample.world)
    as (result & w' & R & _ & C & _ & H & _).
  exists result, w'. split; [exact R |].
  assert (I : successIds
                (recipientOutcomes Sample.config Sample.user
                   (Sample.dispatched gmail) Sample.sentTrackingId
                   Sample.world)
              = ["18c2f0"; "18c2f1"; "18c2f2"]) by (vm_compute; reflexivity).
  rewrite I in C. split; [| exact C].
  apply (H "18c2f0" ["18c2f1"; "18c2f2"] I). discriminate.
Defined.

(** C9, as the claim words it.  When the provider accepts the messages
    and gives them an empty id, three messages are sent and the first
    successful provider message id is the empty text, yet the dispatch
    returns the placeholder. *)
Lemma dispatch_never_raises_counterexample :
  let r :=
    sendEmailWithTracking Sample.config Sample.user
      (Sample.dispatched gmail) Sample.sentTrackingId
      Sample.emptyIdWorld in
  let ids :=
    successIds
      (recipientOutcomes Sample.config Sample.user
         (Sample.dispatched gmail) Sample.sentTrackingId
         Sample.emptyIdWorld) in
  exists result : TrackedSendResult,
    fst r = Returned result
    /\ sentCount result = 3%nat
    /\ head ids = Some EmptyString
    /\ result_messageId result = "bulk_send_1000"
    /\ head ids <> Some (result_messageId result).
Proof.
  eexists. split; [vm_compute; reflexivity |].
  repeat split; discriminate.
Qed.

(** C10.  The dispatch invokes the provider transport once for every
    recipient of the flattened list, in order, and each time with that
    recipient's own copy: its [to] list is the recipient alone and its
    [cc] and [bcc] lists are empty, so no copy carries the address of
    another recipient. *)
Theorem each_recipient_gets_own_copy :
  forall (config : EnvironmentConfig) (user : IUser)
         (emailData : SendEmailRequest) (trackingId : string) (w : World),
    transportCalls
      (snd (sendEmailWithTracking config user emailData trackingId w))
    = (transportCalls w
         ++ map (fun r =>
                   (provider emailData,
                    individualEmailData config emailData trackingId r))
                (to emailData ++ orEmpty (cc emailData)
                   ++ orEmpty (bcc emailData)))%list
    /\
    forall r : string,
      let copy := individualEmailData config emailData trackingId r in
      to copy = [r] /\ cc copy = Some [] /\ bcc copy = Some []
      /\ allRecipients copy = [r].
Proof.
  intros config user emailData trackingId w. split.
  - rewrite sendEmailWithTracking_runs.
    pose proof (runRecipients_calls config user emailData trackingId
                  (allRecipients emailData) w) as C.
    destruct (runRecipients config user emailData trackingId
                (allRecipients emailData) w) as [os w'].
    exact C.
  - intro r. repeat split.
Qed.

Example gmail_copy_headers :
  createGmailMessage 1000 "k3j9x0q1z"
    {| to := ["bob@example.com"]; cc := Some []; bcc := Some [];
       subject := "Hello"; body := "Hi"; htmlBody := None;
       provider := gmail |}
  = Base64.urlSafe
      (Base64.encode
         ("To: bob@example.com" ++ CRLF ++ "Subject: Hello" ++ CRLF
            ++ "MIME-Version: 1.0" ++ CRLF
            ++ "Content-Type: text/plain; charset=UTF-8" ++ CRLF ++ CRLF
            ++ "Hi")).
Proof. reflexivity. Qed.

(** ** The [POST /send] handler when every send fails *)

(** C1, on the code.  The sample request goes through Gmail while the
    provider rejects the token on every call: each of the three sends
    fails, the first with the authentication-expired message.  The
    outcome has [sentCount = 0] and status [failed], as the claim says;
    but the stored record has no error text at all (the claim says it
    equals the first recipient's failure message), and the response
    carries the fallback text. *)
Theorem all_sends_fail_error_not_persisted :
  let outcomes :=
    recipientOutcomes Sample.config Sample.user (Sample.dispatched gmail)
      Sample.sentTrackingId (mint_id Sample.rejectingWorld) in
  let r :=
    postSend Sample.config Sample.user (Sample.request gmail)
      Sample.rejectingWorld in
  forallb isFailure outcomes = true
  /\ List.length outcomes = 3%nat
  /\ firstFailureMessage outcomes = Some gmailAuthExpired
  /\ fst r
     = Returned {| res_status := 500; res_success := false;
                   res_error := Some "Failed to send email";
                   res_emailId := "64b7f0c2a11";
                   res_trackingId := "64b7f0c2a10";
                   res_sentCount := 0 |}
  /\ map status (emails (snd r)) = [failed]
  /\ map error (emails (snd r)) = [None]
  /\ map error (emails (snd r)) <> [firstFailureMessage outcomes].
Proof. vm_compute. repeat split; discriminate. Qed.

(** The same holds of every dispatch whose sends all fail. *)
Lemma all_fail_outcome (config : EnvironmentConfig) (user : IUser)
    (emailData : SendEmailRequest) (trackingId : string) (w : World) :
  forallb isFailure
    (recipientOutcomes config user emailData trackingId w) = true ->
  exists (attempt : SendAttempt) (w' : World),
    attemptSend config user emailData trackingId w = (Returned attempt, w')
    /\ att_sentCount attempt = 0%nat
    /\ att_status attempt = failed
    /\ att_error attempt = None.
Proof.
  unfold recipientOutcomes. intro A. rewrite attemptSend_runs.
  destruct (runRecipients config user emailData trackingId
              (allRecipients emailData) w) as [os w'].
  cbn [fst] in A. rewrite (successIds_none os A).
  do 2 eexists. repeat split.
Qed.

(** ** Tracking requests *)

Example sample_email_stored :
  emails Sample.sentWorld = [Sample.sentEmail]
  /\ events Sample.sentWorld = [].
Proof. vm_compute. split; reflexivity. Qed.

Lemma pixelResponse_valid : validPixel pixelResponse = true.
Proof. vm_compute. reflexivity. Qed.

Lemma parse_click_not_pixel (path : string) (x : string * string * string) :
  parseClickRequest path = Params x -> parsePixelRequest path = NoMatch.
Proof.
  unfold parseClickRequest, parsePixelRequest.
  route_cases path; try discriminate; reflexivity.
Qed.

Lemma parse_pixel_truthy (path trackingId recipient : string) :
  parsePixelRequest path = Params (trackingId, recipient) ->
  truthy trackingId = true /\ truthy recipient = true.
Proof.
  unfold parsePixelRequest. route_cases path; try discriminate.
  destruct (_ && _); [| discriminate].
  destruct (decodeParam s4) as [t|] eqn:T; [| discriminate].
  destruct (decodeParam s5) as [r|] eqn:R; [| discriminate].
  intro H. injection H as <- <-.
  split; eapply decodeParam_truthy; eassumption.
Qed.

Lemma parse_click_valid (path trackingId url recipient : string) :
  parseClickRequest path = Params (trackingId, url, recipient) ->
  validateClickTracking trackingId url recipient = true.
Proof.
  unfold parseClickRequest. route_cases path; try discriminate.
  destruct (_ && _); [| discriminate].
  destruct (decodeParam s4) as [t|] eqn:T; [| discriminate].
  destruct (decodeParam s5) as [u|] eqn:U; [| discriminate].
  destruct (decodeParam s6) as [r|] eqn:R; [| discriminate].
  intro H. injection H as <- <- <-.
  unfold validateClickTracking.
  now rewrite (decodeParam_truthy _ _ T), (decodeParam_truthy _ _ U),
    (decodeParam_truthy _ _ R).
Qed.

Lemma pixelHandler_known (config : EnvironmentConfig)
    (trackingId recipient : string) (req : RequestMeta) (w : World)
    (email : Email) :
  truthy trackingId = true ->
  find (fun e => String.eqb (email_trackingId e) trackingId) (emails w)
  = Some email ->
  let row :=
    newTrackingEvent trackingId email open None recipient req (now w) in
  pixelHandler config trackingId recipient req w
  = if (now w - sendTimestamp email
          <? TRACKING_COOLDOWN_SECONDS config * 1000)%Z
    then (Returned pixelResponse, w)
    else if validTrackingEvent (urlParses w) row
         then (Returned pixelResponse, save_event row w)
         else (Threw (ValidationError "EmailTracking"), w).
Proof.
  intros T F row. unfold pixelHandler. rewrite T. cbn [negb].
  unfold bind, findOneByTrackingId, get_world, ret.
  unfold bind. rewrite F. unfold checkTrackingCooldown, bind, get_world, ret.
  cbn [isActive].
  destruct (now w - sendTimestamp email
              <? TRACKING_COOLDOWN_SECONDS config * 1000)%Z;
    [reflexivity |].
  unfold saveTrackingEvent. fold row.
  destruct (validTrackingEvent (urlParses w) row); reflexivity.
Qed.

Lemma pixelHandler_unknown (config : EnvironmentConfig)
    (trackingId recipient : string) (req : RequestMeta) (w : World) :
  truthy trackingId = true ->
  find (fun e => String.eqb (email_trackingId e) trackingId) (emails w)
  = None ->
  pixelHandler config trackingId recipient req w
  = (Returned pixelResponse, w).
Proof.
  intros T F. unfold pixelHandler. rewrite T. cbn [negb].
  unfold bind, findOneByTrackingId, get_world, ret.
  unfold bind. rewrite F. reflexivity.
Qed.

Lemma clickHandler_runs
    (trackingId url recipient : string) (req : RequestMeta) (w : World) :
  clickHandler trackingId url recipient req w
  = match find (fun e => String.eqb (email_trackingId e) trackingId)
               (emails w) with
    | Some email =>
        let row :=
          newTrackingEvent trackingId email click (Some url) recipient req
            (now w) in
        if validTrackingEvent (urlParses w) row
        then (Returned (Redirect url), save_event row w)
        else (Threw (ValidationError "EmailTracking"), w)
    | None => (Returned (Redirect url), w)
    end.
Proof.
  unfold clickHandler, bind, findOneByTrackingId, get_world, ret.
  unfold bind.
  destruct (find _ (emails w)) as [email|]; [| reflexivity].
  unfold saveTrackingEvent. cbv zeta.
  destruct (validTrackingEvent _ _); reflexivity.
Qed.


Lemma router_pixel (config : EnvironmentConfig) (path : string)
    (req : RequestMeta) (w : World) (trackingId recipient : string) :
  parsePixelRequest path = Params (trackingId, recipient) ->
  trackingRouter config path req w
  = pixelHandler config trackingId recipient req w.
Proof. intro P. unfold trackingRouter. now rewrite P. Qed.

Lemma router_click (config : EnvironmentConfig) (path : string)
    (req : RequestMeta) (w : World) (trackingId url recipient : string) :
  parseClickRequest path = Params (trackingId, url, recipient) ->
  trackingRouter config path req w
  = clickHandler trackingId url recipient req w.
Proof.
  intro P. unfold trackingRouter.
  rewrite (parse_click_not_pixel _ _ P), P.
  now rewrite (parse_click_valid _ _ _ _ P).
Qed.








(** C5.  A tracking id that matches no stored email breaks nothing: an
    open hit that reaches the pixel handler is answered with the one by
    one image, a click that reaches the click handler with a redirect to
    the decoded destination URL it was given, and in both cases the world
    is left as it was, so no row is written. *)
Theorem unknown_tracking_id_is_harmless :
  forall (config : EnvironmentConfig) (w : World) (req : RequestMeta),
    validPixel pixelResponse = true
    /\ (forall trackingId recipient : string,
          truthy trackingId = true ->
          find (fun e => String.eqb (email_trackingId e) trackingId)
               (emails w) = None ->
          pixelHandler config trackingId recipient req w
          = (Returned pixelResponse, w))
    /\ (forall trackingId url recipient : string,
          find (fun e => String.eqb (email_trackingId e) trackingId)
               (emails w) = None ->
          clickHandler trackingId url recipient req w
          = (Returned (Redirect url), w)).
Proof.
  intros config w req. split; [exact pixelResponse_valid |]. split.
  - intros trackingId recipient T F. now apply pixelHandler_unknown.
  - intros trackingId url recipient F.
    rewrite clickHandler_runs. now rewrite F.
Qed.

Lemma unknown_tracking_id_is_harmless_witness :
  pixelHandler Sample.config "ffffffffffffffffffffffff"
    "alice@example.com" Sample.browser (at_time 16000 Sample.sentWorld)
  = (Returned pixelResponse, at_time 16000 Sample.sentWorld)
  /\
  clickHandler "ffffffffffffffffffffffff" "https://example.com/a?b=1&c=2"
    "alice@example.com" Sample.browser (at_time 16000 Sample.sentWorld)
  = (Returned (Redirect "https://example.com/a?b=1&c=2"),
     at_time 16000 Sample.sentWorld).
Proof.
  pose proof (unknown_tracking_id_is_harmless Sample.config
                (at_time 16000 Sample.sentWorld) Sample.browser) as H.
  split.
  - refine (proj1 (proj2 H) "ffffffffffffffffffffffff" "alice@example.com"
              _ _); vm_compute; reflexivity.
  - refine (proj2 (proj2 H) "ffffffffffffffffffffffff"
              "https://example.com/a?b=1&c=2" "alice@example.com" _);
      vm_compute; reflexivity.
Defined.

(** ** Clicks and the cooldown window *)

(** The click handler records every hit on a known id whose row the
    schema accepts, whenever it arrives, and redirects: it does not look
    at the cooldown window. *)
Lemma click_always_recorded (w : World) (req : RequestMeta)
    (trackingId url recipient : string) (email : Email) :
  find (fun e => String.eqb (email_trackingId e) trackingId) (emails w)
  = Some email ->
  let row :=
    newTrackingEvent trackingId email click (Some url) recipient req
      (now w) in
  validTrackingEvent (urlParses w) row = true ->
  clickHandler trackingId url recipient req w
  = (Returned (Redirect url), save_event row w).
Proof.
  intros F row V. rewrite clickHandler_runs, F. cbv zeta. fold row.
  now rewrite V.
Qed.

(** An open hit inside the window writes nothing. *)
Lemma open_hit_in_window_suppressed (config : EnvironmentConfig)
    (w : World) (req : RequestMeta) (trackingId recipient : string)
    (email : Email) :
  truthy trackingId = true ->
  find (fun e => String.eqb (email_trackingId e) trackingId) (emails w)
  = Some email ->
  (now w - sendTimestamp email < TRACKING_COOLDOWN_SECONDS config * 1000)%Z ->
  pixelHandler config trackingId recipient req w
  = (Returned pixelResponse, w).
Proof.
  intros T F L.
  rewrite (pixelHandler_known config _ _ req w email T F).
  apply Z.ltb_lt in L. now rewrite L.
Qed.

(** C3, on the code.  The sample email was sent at time 1000 and the
    window is 10 seconds.  A click on its link at time 4000, three
    seconds after the send, is redirected to the destination, as the
    claim says; but a row of type [click] is written (the claim says
    none is), whereas the open hit at the same time writes none. *)
Theorem click_in_window_is_recorded :
  let w := at_time 4000 Sample.sentWorld in
  let url := "https://example.com/a?b=1&c=2" in
  let click_hit :=
    trackingRouter Sample.config
      (Sample.clickPath Sample.sentTrackingId url "alice@example.com")
      Sample.browser w in
  let open_hit :=
    trackingRouter Sample.config (Sample.pixelPath "alice@example.com")
      Sample.browser w in
  (now w - sendTimestamp Sample.sentEmail
   < TRACKING_COOLDOWN_SECONDS Sample.config * 1000)%Z
  /\ fst click_hit = Returned (Redirect url)
  /\ events (snd click_hit)
     = [newTrackingEvent Sample.sentTrackingId Sample.sentEmail click
          (Some url) "alice@example.com" Sample.browser 4000]
  /\ events (snd click_hit) <> events w
  /\ fst open_hit = Returned pixelResponse
  /\ events (snd open_hit) = events w.
Proof. vm_compute. repeat split; discriminate. Qed.

(** * Further properties of the code *)

(** ** Link rewriting *)

Lemma scan_without_url (f : string -> string) (s : string) :
  noUrl s = true -> Regex.scan f s None = s.
Proof.
  induction s as [|c s IH]; [reflexivity |].
  cbn [noUrl]. intro H. apply andb_true_iff in H as [U R].
  apply negb_true_iff in U. cbn [Regex.scan]. rewrite U.
  now rewrite (IH R).
Qed.

Lemma scan_run (f : string -> string) (s : string) :
  noDelim s = true ->
  forall acc : string, Regex.scan f s (Some acc) = f (acc ++ s).
Proof.
  induction s as [|c s IH]; intros H acc.
  - cbn. now rewrite append_nil_r.
  - cbn [noDelim] in H. apply andb_true_iff in H as [D R].
    apply negb_true_iff in D. cbn [Regex.scan]. rewrite D.
    rewrite (IH R). now rewrite append_assoc.
Qed.

Lemma replaceUrls_whole_url (f : string -> string) (url : string) :
  Regex.urlStartsAt url = true -> noDelim url = true ->
  Regex.replaceUrls f url = f url.
Proof.
  intros U D. unfold Regex.replaceUrls.
  destruct url as [|c s]; [discriminate U |].
  cbn [Regex.scan]. rewrite U.
  cbn [noDelim] in D. apply andb_true_iff in D as [_ D].
  now rewrite (scan_run f s D).
Qed.

(** X1.  A text in which no link begins is handed on unchanged by the
    link rewriter, in the plain and in the HTML variant, and so it is by
    the older rewriter. *)
Theorem text_without_link_unchanged :
  forall (config : EnvironmentConfig)
         (content trackingId recipientEmail : string) (isHtml : bool),
    noUrl content = true ->
    addClickTrackingForRecipient config content trackingId recipientEmail
      isHtml = content
    /\ addClickTracking config content trackingId isHtml = content.
Proof.
  intros config content trackingId recipientEmail isHtml H.
  unfold addClickTrackingForRecipient, addClickTracking, Regex.replaceUrls.
  now rewrite !scan_without_url.
Qed.

Lemma text_without_link_unchanged_witness :
  addClickTrackingForRecipient Sample.config
    "Meet at 10, room http 4 (see ftp://files)" "64b7f0c2a10"
    "alice@example.com" false
  = "Meet at 10, room http 4 (see ftp://files)".
Proof.
  refine (proj1 (text_without_link_unchanged Sample.config
                   "Meet at 10, room http 4 (see ftp://files)"
                   "64b7f0c2a10" "alice@example.com" false _)).
  vm_compute. reflexivity.
Defined.

(** X2.  A body that consists of one link is replaced by the tracking
    link for the recipient, and that tracking link leads back: the
    parameters the click route reads from its path are the tracking id,
    the original link and the recipient.  Given these, the click handler
    redirects to the original link when the tracking id is unknown, and
    when it is known and the row of the click passes the validators of
    the schema; it then stores that row. *)
Theorem rewritten_link_leads_back :
  forall (config : EnvironmentConfig) (url trackingId recipientEmail : string)
         (isHtml : bool) (req : RequestMeta) (w : World),
    Regex.urlStartsAt url = true ->
    noDelim url = true ->
    plainSegment trackingId = true ->
    recipientEmail <> EmptyString ->
    let link :=
      addClickTrackingForRecipient config url trackingId recipientEmail
        isHtml in
    link = trackingUrl config trackingId recipientEmail url
    /\ exists path : string,
         requestPath (APP_URL config) link = Some path
         /\ parseClickRequest path
            = Params (trackingId, url, recipientEmail)
         /\ (find (fun e => String.eqb (email_trackingId e) trackingId)
                  (emails w) = None ->
             clickHandler trackingId url recipientEmail req w
             = (Returned (Redirect url), w))
         /\ (forall email : Email,
               let row :=
                 newTrackingEvent trackingId email click (Some url)
                   recipientEmail req (now w) in
               find (fun e => String.eqb (email_trackingId e) trackingId)
                    (emails w) = Some email ->
               validTrackingEvent (urlParses w) row = true ->
               clickHandler trackingId url recipientEmail req w
               = (Returned (Redirect url), save_event row w)).
Proof.
  intros config url trackingId recipientEmail isHtml req w U D P R link.
  assert (L : link = trackingUrl config trackingId recipientEmail url).
  { unfold link, addClickTrackingForRecipient.
    rewrite (replaceUrls_whole_url _ url U D). now destruct isHtml. }
  split; [exact L |].
  apply truthy_true in R.
  assert (T : truthy url = true) by (destruct url; [discriminate U | reflexivity]).
  destruct (plainSegment_spec _ P) as (_ & At & _).
  exists ("/api/tracking/click/" ++ trackingId ++ "/"
            ++ encodeURIComponent url ++ "/"
            ++ encodeURIComponent recipientEmail).
  rewrite L. unfold trackingUrl. split; [| split; [| split]].
  - apply requestPath_built.
    apply built_path_queryFree; [reflexivity | exact At |].
    rewrite !allChars_append.
    now rewrite (pathChar_queryFree _ (encode_pathChars url)),
      (pathChar_queryFree _ (encode_pathChars recipientEmail)).
  - now apply parse_click_path.
  - intro F. rewrite clickHandler_runs. now rewrite F.
  - intros email F V. rewrite clickHandler_runs, F.
    cbv zeta. now rewrite V.
Qed.

Lemma rewritten_link_leads_back_witness :
  addClickTrackingForRecipient Sample.config
    "https://example.com/a?b=1&c=2" "64b7f0c2a10" "alice@example.com" true
  = trackingUrl Sample.config "64b7f0c2a10" "alice@example.com"
      "https://example.com/a?b=1&c=2".
Proof.
  refine (proj1 (rewritten_link_leads_back Sample.config
                   "https://example.com/a?b=1&c=2" "64b7f0c2a10"
                   "alice@example.com" true Sample.browser Sample.world
                   _ _ _ _));
    [vm_compute; reflexivity | vm_compute; reflexivity
    | vm_compute; reflexivity | discriminate].
Defined.

(** X3.  The links of the older rewriter, which carry the destination in
    the query, have no route: the path a client requests for such a link
    ends before the question mark, it matches neither the pixel route nor
    the click route, and the tracking router answers that the route does
    not exist and records nothing. *)
Theorem query_link_has_no_route :
  forall (config : EnvironmentConfig) (trackingId url : string)
         (req : RequestMeta) (w : World),
    plainSegment trackingId = true ->
    exists path : string,
      requestPath (APP_URL config) (queryTrackingUrl config trackingId url)
      = Some path
      /\ path = "/api/tracking/click/" ++ trackingId
      /\ trackingRouter config path req w = (Returned RouteNotFound, w).
Proof.
  intros config trackingId url req w P.
  destruct (plainSegment_spec _ P) as (Tt & At & _).
  exists ("/api/tracking/click/" ++ trackingId).
  split; [| split; [reflexivity |]].
  - unfold queryTrackingUrl, requestPath.
    rewrite stripPrefix_append. cbn [option_map]. f_equal.
    rewrite <- (append_assoc "/api/tracking/click/" trackingId).
    assert (Q : cutQuery ("?url=" ++ encodeURIComponent url) = EmptyString)
      by reflexivity.
    rewrite cutQuery_append.
    + rewrite Q. apply append_nil_r.
    + rewrite allChars_append.
      now rewrite (pathChar_queryFree _ At).
  - assert (S : splitOn slash ("/api/tracking/click/" ++ trackingId)
                = ([EmptyString; "api"; "tracking"; "click"]
                     ++ [trackingId])%list).
    { cbn [append splitOn Ascii.eqb Bool.eqb slash].
      now rewrite (splitOn_plain _ At). }
    unfold trackingRouter, parsePixelRequest, parseClickRequest.
    rewrite S, (dropTrailingEmpty_keep _ _ Tt). reflexivity.
Qed.

Lemma query_link_has_no_route_witness :
  exists path : string,
    requestPath (APP_URL Sample.config)
      (queryTrackingUrl Sample.config "64b7f0c2a10" "https://example.com/")
    = Some path
    /\ path = "/api/tracking/click/" ++ "64b7f0c2a10"
    /\ trackingRouter Sample.config path Sample.browser Sample.sentWorld
       = (Returned RouteNotFound, Sample.sentWorld).
Proof.
  refine (query_link_has_no_route Sample.config "64b7f0c2a10"
            "https://example.com/" Sample.browser Sample.sentWorld _).
  vm_compute. reflexivity.
Defined.

(** ** The transports: guards and submissions *)

(** X4.  Without a Google connection that carries an access token the
    Gmail transport fails with a transport error that names the reason,
    and nothing is submitted to the provider. *)
Theorem gmail_send_needs_token :
  forall (user : IUser) (emailData : SendEmailRequest) (w : World),
    connectedWithToken google user = false ->
    let r := sendGmailEmail user emailData w in
    (fst r
     = Threw (Error "Failed to send Gmail email: No Google account connected")
     \/ fst r
        = Threw (Error "Failed to send Gmail email: No access token available for Google account"))
    /\ (exists e : JsError, fst r = Threw e /\ TransportError e)
    /\ submitted (snd r) = submitted w.
Proof.
  intros user emailData w H. unfold connectedWithToken in H.
  unfold sendGmailEmail, bind, tryCatch, modify.
  destruct (find _ (connectedProviders user)) as [conn|].
  - rewrite H. cbn. split; [now right |]. split; [| reflexivity].
    eexists. split; [reflexivity |]. eexists. reflexivity.
  - cbn. split; [now left |]. split; [| reflexivity].
    eexists. split; [reflexivity |]. eexists. reflexivity.
Qed.

Lemma gmail_send_needs_token_witness :
  submitted
    (snd (sendGmailEmail Fixture.otherUser (Sample.request gmail)
            Sample.world))
  = submitted Sample.world.
Proof.
  refine (proj2 (proj2 (gmail_send_needs_token Fixture.otherUser
                          (Sample.request gmail) Sample.world _))).
  reflexivity.
Defined.

(** X5.  With a connection and a token the Gmail transport makes exactly
    one submission, whose payload is the encoded message; it returns the
    provider's message id when the provider gives one, and fails when the
    provider fails. *)
Theorem gmail_send_submits_once :
  forall (user : IUser) (emailData : SendEmailRequest) (w : World),
    connectedWithToken google user = true ->
    let r := sendGmailEmail user emailData w in
    let raw := createGmailMessage (now w) (random w) emailData in
    submitted (snd r) = (submitted w ++ [GmailSubmission raw])%list
    /\ (forall id : string,
          gmailApi w (List.length (submitted w)) raw = inr id ->
          fst r = Returned {| messageId := id |})
    /\ (forall err : JsError,
          gmailApi w (List.length (submitted w)) raw = inl err ->
          isFailure (fst r) = true).
Proof.
  intros user emailData w H. unfold connectedWithToken in H.
  unfold sendGmailEmail, bind, tryCatch, modify, get_world,
    gmail_users_messages_send.
  destruct (find _ (connectedProviders user)) as [conn|]; [| discriminate].
  rewrite H.
  cbn [negb record_transportCall submitted gmailApi now random fst snd].
  destruct (gmailApi w (List.length (submitted w))
              (createGmailMessage (now w) (random w) emailData))
    as [err|id] eqn:G.
  - cbn [fst snd].
    destruct (codeIs 401 (code err));
      [| destruct (message err) as [text|];
         [destruct (includes text "invalid_grant"
                    || includes text "access_token"
                    || includes text "refresh") |]];
      cbn; (split; [reflexivity |]); split; intros; try discriminate;
      reflexivity.
  - cbn. split; [reflexivity |]. split; intros; [congruence | discriminate].
Qed.

Lemma gmail_send_submits_once_witness :
  submitted
    (snd (sendGmailEmail Sample.user (Sample.dispatched gmail) Sample.world))
  = [GmailSubmission
       (createGmailMessage 1000 "k3j9x0q1z" (Sample.dispatched gmail))].
Proof.
  refine (proj1 (gmail_send_submits_once Sample.user
                   (Sample.dispatched gmail) Sample.world _)).
  reflexivity.
Defined.

(** X6.  The Outlook transport succeeds exactly when the user has a
    Microsoft connection with an access token; otherwise it fails with a
    transport error that names the reason.  It never fails with the
    authentication-expired error: the branch of its [catch] clause that
    raises it cannot be reached. *)
Theorem outlook_send_outcomes :
  forall (user : IUser) (emailData : SendEmailRequest) (w : World),
    let r := sendOutlookEmail user emailData w in
    (connectedWithToken microsoft user = true <-> isFailure (fst r) = false)
    /\ (connectedWithToken microsoft user = false ->
        fst r
        = Threw (Error "Failed to send Outlook email: No Microsoft account connected")
        \/ fst r
           = Threw (Error "Failed to send Outlook email: No access token available for Microsoft account"))
    /\ (forall e : JsError,
          fst r = Threw e -> message e <> Some outlookAuthExpired).
Proof.
  intros user emailData w. unfold connectedWithToken.
  unfold sendOutlookEmail, bind, tryCatch, modify, get_world.
  destruct (find _ (connectedProviders user)) as [conn|].
  - destruct (truthy (accessToken conn)); cbn.
    + repeat split; intros; try discriminate; try reflexivity.
    + repeat split; intros; try discriminate; try (now right).
      injection H as <-. discriminate.
  - cbn. repeat split; intros; try discriminate; try (now left).
    injection H as <-. discriminate.
Qed.

(** ** The Gmail payload *)

Lemma b64char_alphabet (n : N) :
  (n < 64)%N -> base64Char (Base64.b64char n) = true.
Proof.
  intro H.
  assert (A : forallb (fun k => base64Char (Base64.b64char (N.of_nat k)))
                      (seq 0 64) = true) by (vm_compute; reflexivity).
  rewrite forallb_forall in A.
  rewrite <- (N2Nat.id n). apply A. apply in_seq. lia.
Qed.

Lemma codeOf_bound (c : ascii) : (codeOf c < 256)%N.
Proof. apply N_ascii_bounded. Qed.

Lemma sextets_bound (a b c : ascii) :
  (codeOf a / 4 < 64
   /\ (codeOf a mod 4) * 16 + codeOf b / 16 < 64
   /\ (codeOf b mod 16) * 4 + codeOf c / 64 < 64
   /\ codeOf c mod 64 < 64
   /\ (codeOf a mod 4) * 16 < 64
   /\ (codeOf b mod 16) * 4 < 64)%N.
Proof.
  pose proof (codeOf_bound a) as A. pose proof (codeOf_bound b) as B.
  pose proof (codeOf_bound c) as C.
  pose proof (N.mod_lt (codeOf a) 4 ltac:(discriminate)).
  pose proof (N.mod_lt (codeOf b) 16 ltac:(discriminate)).
  pose proof (N.mod_lt (codeOf c) 64 ltac:(discriminate)).
  assert (codeOf a / 4 < 64)%N by (apply N.Div0.div_lt_upper_bound; lia).
  assert (codeOf b / 16 < 16)%N by (apply N.Div0.div_lt_upper_bound; lia).
  assert (codeOf c / 64 < 4)%N by (apply N.Div0.div_lt_upper_bound; lia).
  lia.
Qed.

Lemma urlChar_alphabet (c : ascii) :
  base64Char c = true -> base64urlChar (Base64.urlChar c) = true.
Proof. each_byte c; intro H; discriminate H. Qed.

Lemma base64urlChar_not_pad (c : ascii) :
  base64urlChar c = true -> isPad c = false.
Proof. each_byte c; intro H; discriminate H. Qed.

Lemma mapChars_append (f : ascii -> ascii) (a b : string) :
  Base64.mapChars f (a ++ b) = Base64.mapChars f a ++ Base64.mapChars f b.
Proof. induction a as [|c a IH]; cbn; [reflexivity | now rewrite IH]. Qed.

Lemma encodedShape_all (s : string) :
  encodedShape s
  /\ (forall a, encodedShape (String a s))
  /\ (forall a b, encodedShape (String a (String b s))).
Proof.
  induction s as [|c s (IH0 & IH1 & IH2)].
  - split; [| split].
    + exists EmptyString, EmptyString. repeat split.
    + intro a. destruct (sextets_bound a a a) as (H1 & _ & _ & _ & H5 & _).
      exists (Base64.mapChars Base64.urlChar
                (Base64.chars [codeOf a / 4; (codeOf a mod 4) * 16]%N)),
             "==".
      split; [| split; [| reflexivity]].
      * cbn [Base64.encode]. now rewrite mapChars_append.
      * cbn. now rewrite !urlChar_alphabet by now apply b64char_alphabet.
    + intros a b.
      destruct (sextets_bound a b b) as (H1 & H2 & _ & _ & _ & H6).
      exists (Base64.mapChars Base64.urlChar
                (Base64.chars
                   [codeOf a / 4; (codeOf a mod 4) * 16 + codeOf b / 16;
                    (codeOf b mod 16) * 4]%N)), "=".
      split; [| split; [| reflexivity]].
      * cbn [Base64.encode]. now rewrite mapChars_append.
      * cbn. now rewrite !urlChar_alphabet by now apply b64char_alphabet.
  - split; [exact (IH1 c) | split; [intro a; exact (IH2 a c) |]].
    intros a b. destruct IH0 as (core & pad & E & A & P).
    destruct (sextets_bound a b c) as (H1 & H2 & H3 & H4 & _).
    exists (Base64.mapChars Base64.urlChar
              (Base64.chars
                 [codeOf a / 4; (codeOf a mod 4) * 16 + codeOf b / 16;
                  (codeOf b mod 16) * 4 + codeOf c / 64; codeOf c mod 64]%N)
              ++ core), pad.
    split; [| split; [| exact P]].
    + cbn [Base64.encode]. rewrite mapChars_append, E.
      now rewrite append_assoc.
    + rewrite allChars_append, A. cbn.
      now rewrite !urlChar_alphabet by now apply b64char_alphabet.
Qed.

Lemma stripPadding_pad (pad : string) :
  allChars isPad pad = true -> Base64.stripPadding pad = EmptyString.
Proof.
  induction pad as [|c pad IH]; [reflexivity |].
  cbn [allChars]. intro H. apply andb_true_iff in H as [C R].
  cbn [Base64.stripPadding]. rewrite (IH R).
  unfold isPad in C. now rewrite C.
Qed.

Lemma stripPadding_core (core pad : string) :
  allChars base64urlChar core = true -> allChars isPad pad = true ->
  Base64.stripPadding (core ++ pad) = core.
Proof.
  intros A P. induction core as [|c core IH].
  - now apply stripPadding_pad.
  - cbn [allChars] in A. apply andb_true_iff in A as [C R].
    cbn [append Base64.stripPadding]. rewrite (IH R).
    apply base64urlChar_not_pad in C. unfold isPad in C. now rewrite C.
Qed.

(** X7.  The payload [createGmailMessage] produces is URL-safe base64
    without padding: whatever the message, it consists of letters, digits,
    hyphens and underscores only. *)
Theorem gmail_payload_is_base64url :
  forall (clock : Z) (rand : string) (emailData : SendEmailRequest),
    allChars base64urlChar (createGmailMessage clock rand emailData) = true.
Proof.
  intros clock rand emailData.
  change (createGmailMessage clock rand emailData)
    with (Base64.urlSafe
            (Base64.encode (gmailMessageText clock rand emailData))).
  unfold Base64.urlSafe.
  destruct (encodedShape_all (gmailMessageText clock rand emailData))
    as ((core & pad & E & A & P) & _).
  now rewrite E, stripPadding_core.
Qed.

(** ** The cooldown window *)

Lemma ceilDiv_bounds (a : Z) :
  (0 < a)%Z ->
  (1 <= ceilDiv a 1000 /\ (ceilDiv a 1000 - 1) * 1000 < a
   /\ a <= ceilDiv a 1000 * 1000)%Z.
Proof.
  intro H. unfold ceilDiv.
  pose proof (Z.div_mod (- a) 1000 ltac:(discriminate)) as D.
  pose proof (Z.mod_pos_bound (- a) 1000 ltac:(reflexivity)) as B.
  lia.
Qed.

(** X9.  [checkTrackingCooldown] reports the window as active exactly
    while less than the configured number of seconds has elapsed since
    the send.  While it is active the remaining time is the elapsed
    shortfall rounded up to whole seconds: at least one second, never a
    second too many, and, for a send that is not in the future, at most
    the configured window.  Once the window has passed the remaining time
    is zero.  The check changes nothing. *)
Theorem cooldown_remaining_bounds :
  forall (config : EnvironmentConfig) (sentTimestamp : Z) (w : World),
    let elapsed := (now w - sentTimestamp)%Z in
    let window := (TRACKING_COOLDOWN_SECONDS config * 1000)%Z in
    exists st : CooldownStatus,
      checkTrackingCooldown config sentTimestamp w = (Returned st, w)
      /\ (isActive st = true <-> (elapsed < window)%Z)
      /\ (isActive st = false -> remainingSeconds st = 0%Z)
      /\ (isActive st = true ->
          (1 <= remainingSeconds st
           /\ (remainingSeconds st - 1) * 1000 < window - elapsed
           /\ window - elapsed <= remainingSeconds st * 1000)%Z)
      /\ (isActive st = true -> (0 <= elapsed)%Z ->
          (remainingSeconds st <= TRACKING_COOLDOWN_SECONDS config)%Z).
Proof.
  intros config sentTimestamp w elapsed window.
  unfold checkTrackingCooldown, bind, get_world, ret.
  eexists. split; [reflexivity |].
  cbn [isActive remainingSeconds]. fold elapsed window.
  destruct (elapsed <? window)%Z eqn:E.
  - apply Z.ltb_lt in E.
    pose proof (ceilDiv_bounds (window - elapsed) ltac:(lia)) as B.
    repeat split; intros; try discriminate; try lia.
  - apply Z.ltb_ge in E. repeat split; intros; try discriminate; lia.
Qed.

(** ** The [POST /send] handler as a whole *)

(** X10.  A request to [POST /send] hands a copy to the transport for
    every recipient, built with the tracking id minted for the request,
    and writes no tracking row, whether or not its record is stored
    afterwards.  When the record passes the validators of the email
    schema (a subject that is not blank, addresses of the shape the
    schema admits, the size limits), exactly one record is stored: it
    belongs to the requesting user, carries the provider of the request,
    the clock reading as its send time, the tracking id and the record id
    that the response returns, the trimmed subject and the recipients in
    lower case.  When it does not pass, the handler throws after the
    copies were handed over, and no record is stored. *)
Theorem send_request_is_recorded :
  forall (config : EnvironmentConfig) (user : IUser)
         (reqBody : SendEmailRequest) (w : World),
    let trackingId := objectIds w (mintedIds w) in
    let r := postSend config user reqBody w in
    transportCalls (snd r)
    = (transportCalls w
         ++ map (fun recipient =>
                   (provider reqBody,
                    individualEmailData config (dispatchedRequest reqBody)
                      trackingId recipient))
                (to reqBody ++ orEmpty (cc reqBody)
                   ++ orEmpty (bcc reqBody)))%list
    /\ events (snd r) = events w
    /\ (storable reqBody trackingId = true ->
        exists (response : SendResponse) (stored : Email),
          fst r = Returned response
          /\ emails (snd r) = (emails w ++ [stored])%list
          /\ res_trackingId response = trackingId
          /\ email_trackingId stored = trackingId
          /\ email_id stored = res_emailId response
          /\ email_userId stored = user_id user
          /\ sendTimestamp stored = now w
          /\ email_provider stored = provider reqBody
          /\ email_subject stored = trim (subject reqBody)
          /\ email_to stored = map normalizeAddress (to reqBody)
          /\ email_cc stored = map normalizeAddress (orEmpty (cc reqBody))
          /\ email_bcc stored
             = map normalizeAddress (orEmpty (bcc reqBody)))
    /\ (storable reqBody trackingId = false ->
        isFailure (fst r) = true /\ emails (snd r) = emails w).
Proof.
  intros config user reqBody w trackingId r. subst r.
  rewrite postSend_runs. fold trackingId.
  pose proof (runRecipients_frame config user (dispatchedRequest reqBody)
                trackingId
                (allRecipients (dispatchedRequest reqBody)) (mint_id w))
    as (_ & F2 & F3 & _).
  pose proof (runRecipients_calls config user (dispatchedRequest reqBody)
                trackingId
                (allRecipients (dispatchedRequest reqBody)) (mint_id w))
    as C.
  cbn [emails events transportCalls mint_id] in F2, F3, C.
  destruct (storable reqBody trackingId);
    cbn [fst snd emails events transportCalls save_email mint_id];
    rewrite F2, F3, C;
    (split; [reflexivity |]); (split; [reflexivity |]);
    split; intro H; try discriminate H.
  - do 2 eexists. repeat split.
  - split; reflexivity.
Qed.

(** The validators on some inputs. *)
Example client_address_samples :
  map validIpAddress
    ["203.0.113.7"; "255.255.255.255"; "256.0.0.1"; "1.2.3";
     "2001:0db8:0000:0000:0000:0000:0000:0001"; "2001:db8::1"; "::1";
     "::ffff:203.0.113.7"; EmptyString]
  = [true; true; false; false; true; false; false; false; true].
Proof. vm_compute. reflexivity. Qed.

Example recipient_expression_samples :
  map recipientRegexTest
    ["alice@example.com"; "First.Last@mail.example.co.uk"; "a-b@c-d.org";
     "bob@example.info"; "a+b@example.com"; "a@b.c"; "a..b@c.com";
     "a@b@c.com"; "alice@example.com "]
  = [true; true; true; false; false; false; false; false; false].
Proof. vm_compute. reflexivity. Qed.

Example trim_samples :
  trim "  Hello  world " = "Hello  world"
  /\ trim "   " = EmptyString
  /\ normalizeAddress "Alice@Example.COM" = "alice@example.com"
  /\ jsLength "Hello" = 5%N.
Proof. vm_compute. repeat split. Qed.

(** Two addresses the request validation lets through and the email
    schema does not: the mail goes out to both recipients, and the
    request fails with no record of it. *)
Example unstorable_request_is_sent :
  let reqBody :=
    {| to := ["bob@example.info"; "a+b@example.com"]; cc := None;
       bcc := None; subject := "Hello"; body := "Hi"; htmlBody := None;
       provider := gmail |} in
  let r := postSend Sample.config Sample.user reqBody Sample.world in
  validateEmailAddresses (to reqBody) = true
  /\ isFailure (fst r) = true
  /\ List.length (submitted (snd r)) = 2%nat
  /\ emails (snd r) = [].
Proof. vm_compute. repeat split. Qed.

(** X11.  The answer of [POST /send] to a request whose record passes the
    validators of the email schema follows the number of recipients the
    message could be sent to, however many sends failed on the way: the
    count it reports is the number of successful sends; with at least one
    success the status is 200 and the record is [sent]; with none the
    status is 500, the record is [failed], and the error text of the
    answer is the fixed fallback. *)
Theorem send_answer_follows_successes :
  forall (config : EnvironmentConfig) (user : IUser)
         (reqBody : SendEmailRequest) (w : World),
    let trackingId := objectIds w (mintedIds w) in
    let outcomes :=
      recipientOutcomes config user (dispatchedRequest reqBody)
        trackingId (mint_id w) in
    let r := postSend config user reqBody w in
    storable reqBody trackingId = true ->
    exists (response : SendResponse) (stored : Email),
      fst r = Returned response
      /\ emails (snd r) = (emails w ++ [stored])%list
      /\ res_sentCount response = List.length (successIds outcomes)
      /\ (successIds outcomes <> [] ->
          res_status response = 200%Z /\ res_success response = true
          /\ status stored = sent /\ res_error response = None)
      /\ (successIds outcomes = [] ->
          res_status response = 500%Z /\ res_success response = false
          /\ status stored = failed
          /\ res_error response = Some "Failed to send email").
Proof.
  intros config user reqBody w trackingId outcomes r V. subst r.
  rewrite postSend_runs. fold trackingId. rewrite V.
  pose proof (runRecipients_frame config user (dispatchedRequest reqBody)
                trackingId
                (allRecipients (dispatchedRequest reqBody)) (mint_id w))
    as (_ & F2 & _).
  cbn [emails mint_id] in F2.
  do 2 eexists. split; [reflexivity |].
  cbn [fst snd emails save_email mint_id]. rewrite F2.
  split; [reflexivity |].
  unfold outcomes, recipientOutcomes.
  cbn [res_sentCount res_status res_success res_error status].
  destruct (successIds _) as [|id ids]; cbn;
    repeat split; intros; congruence.
Qed.

Lemma send_answer_follows_successes_witness :
  exists response : SendResponse,
    fst (postSend Sample.config Sample.user (Sample.request gmail)
           Sample.world) = Returned response
    /\ res_status response = 200%Z.
Proof.
  assert (V : storable (Sample.request gmail)
                (objectIds Sample.world (mintedIds Sample.world)) = true)
    by (vm_compute; reflexivity).
  destruct (send_answer_follows_successes Sample.config Sample.user
              (Sample.request gmail) Sample.world V)
    as (response & stored & R & _ & _ & S & _).
  exists response. split; [exact R |].
  apply S. vm_compute. discriminate.
Defined.

(** ** Address validation *)

Lemma spaceAt_atSign (r : string) : spaceAt (String atSign r) = false.
Proof. destruct r as [|b [|c r]]; reflexivity. Qed.

Lemma spaceAt_dot (r : string) : spaceAt (String dot r) = false.
Proof. destruct r as [|b [|c r]]; reflexivity. Qed.

Lemma classAll_spec (s : string) :
  classAll s = noSpace s && allChars notAt s.
Proof.
  induction s as [|c s IH]; [reflexivity |].
  cbn [classAll noSpace allChars inClass]. rewrite IH. unfold notAt.
  destruct (spaceAt (String c s)), (Ascii.eqb c atSign), (noSpace s),
    (allChars (fun c0 => negb (Ascii.eqb c0 atSign)) s); reflexivity.
Qed.

Lemma inClass_spec (c : ascii) (s : string) :
  inClass (String c s) = negb (spaceAt (String c s)) && notAt c.
Proof. reflexivity. Qed.

Lemma matchDomain_sound (s : string) :
  forall seen : bool,
    matchDomain seen s = true ->
    noSpace s = true
    /\ exists d1 d2 : string,
         s = d1 ++ String dot d2
         /\ (seen = false -> d1 <> EmptyString)
         /\ d2 <> EmptyString
         /\ allChars notAt d1 = true /\ allChars notAt d2 = true.
Proof.
  induction s as [|c s IH]; intros seen H; [discriminate H |].
  cbn [matchDomain] in H. apply orb_true_iff in H as [H | H].
  - apply andb_true_iff in H as [H C]. apply andb_true_iff in H as [H T].
    apply andb_true_iff in H as [S D]. apply Ascii.eqb_eq in D. subst c.
    rewrite classAll_spec in C. apply andb_true_iff in C as [N A].
    split.
    + cbn [noSpace]. now rewrite spaceAt_dot, N.
    + exists EmptyString, s. repeat split; auto.
      * intro F. rewrite F in S. discriminate S.
      * now apply truthy_true.
  - apply andb_true_iff in H as [C R]. rewrite inClass_spec in C.
    apply andb_true_iff in C as [C1 C2].
    destruct (IH true R) as (N & d1 & d2 & E & _ & D2 & A1 & A2).
    split.
    + cbn [noSpace]. now rewrite C1, N.
    + exists (String c d1), d2. repeat split; auto.
      * cbn. now rewrite E.
      * discriminate.
      * cbn [allChars]. now rewrite C2, A1.
Qed.

Lemma matchAddress_sound (s : string) :
  forall seen : bool,
    matchAddress seen s = true ->
    noSpace s = true
    /\ exists l d1 d2 : string,
         s = l ++ String atSign (d1 ++ String dot d2)
         /\ (seen = false -> l <> EmptyString)
         /\ d1 <> EmptyString /\ d2 <> EmptyString
         /\ allChars notAt l = true /\ allChars notAt d1 = true
         /\ allChars notAt d2 = true.
Proof.
  induction s as [|c s IH]; intros seen H; [discriminate H |].
  cbn [matchAddress] in H. apply orb_true_iff in H as [H | H].
  - apply andb_true_iff in H as [H M]. apply andb_true_iff in H as [S D].
    apply Ascii.eqb_eq in D. subst c.
    destruct (matchDomain_sound s false M)
      as (N & d1 & d2 & E & D1 & D2 & A1 & A2).
    split.
    + cbn [noSpace]. now rewrite spaceAt_atSign, N.
    + exists EmptyString, d1, d2. repeat split; auto.
      * cbn. now rewrite E.
      * intro F. rewrite F in S. discriminate S.
  - apply andb_true_iff in H as [C R]. rewrite inClass_spec in C.
    apply andb_true_iff in C as [C1 C2].
    destruct (IH true R) as (N & l & d1 & d2 & E & _ & D1 & D2 & A0 & A1 & A2).
    split.
    + cbn [noSpace]. now rewrite C1, N.
    + exists (String c l), d1, d2. repeat split; auto.
      * cbn. now rewrite E.
      * discriminate.
      * cbn [allChars]. now rewrite C2, A0.
Qed.

Lemma matchDomain_complete (d1 d2 : string) :
  forall seen : bool,
    noSpace (d1 ++ String dot d2) = true ->
    allChars notAt d1 = true -> allChars notAt d2 = true ->
    d2 <> EmptyString ->
    (seen = true \/ d1 <> EmptyString) ->
    matchDomain seen (d1 ++ String dot d2) = true.
Proof.
  induction d1 as [|c d1 IH]; intros seen N A1 A2 D2 S.
  - destruct S as [-> | S]; [| congruence].
    cbn [append matchDomain noSpace] in *.
    apply andb_true_iff in N as [_ N].
    rewrite classAll_spec, N, A2. apply truthy_true in D2. rewrite D2.
    now rewrite Ascii.eqb_refl.
  - cbn [append noSpace allChars] in *.
    apply andb_true_iff in N as [N1 N]. apply andb_true_iff in A1 as [C A1].
    cbn [matchDomain]. rewrite inClass_spec, N1, C.
    rewrite (IH true N A1 A2 D2 (or_introl eq_refl)).
    apply orb_true_r.
Qed.

Lemma matchAddress_complete (l d1 d2 : string) :
  forall seen : bool,
    noSpace (l ++ String atSign (d1 ++ String dot d2)) = true ->
    allChars notAt l = true -> allChars notAt d1 = true ->
    allChars notAt d2 = true ->
    d1 <> EmptyString -> d2 <> EmptyString ->
    (seen = true \/ l <> EmptyString) ->
    matchAddress seen (l ++ String atSign (d1 ++ String dot d2)) = true.
Proof.
  induction l as [|c l IH]; intros seen N A0 A1 A2 D1 D2 S.
  - destruct S as [-> | S]; [| congruence].
    cbn [append matchAddress noSpace] in *.
    apply andb_true_iff in N as [_ N].
    rewrite Ascii.eqb_refl.
    now rewrite (matchDomain_complete d1 d2 false N A1 A2 D2 (or_intror D1)).
  - cbn [append noSpace allChars] in *.
    apply andb_true_iff in N as [N1 N]. apply andb_true_iff in A0 as [C A0].
    cbn [matchAddress]. rewrite inClass_spec, N1, C.
    rewrite (IH true N A0 A1 A2 D1 D2 (or_introl eq_refl)).
    apply orb_true_r.
Qed.

(** X12.  The address test accepts exactly the texts of the form
    local part, at sign, domain, where the domain has a dot with
    something on either side: the text has no white space, and it splits
    into three non-empty parts free of at signs, the first followed by
    the at sign and the last two separated by a dot.  In particular an
    accepted address is not empty and has exactly one at sign. *)
Theorem address_test_accepts :
  forall email : string,
    emailRegexTest email = true
    <-> (noSpace email = true
         /\ exists l d1 d2 : string,
              email = l ++ "@" ++ d1 ++ "." ++ d2
              /\ l <> EmptyString /\ d1 <> EmptyString
              /\ d2 <> EmptyString
              /\ allChars notAt l = true /\ allChars notAt d1 = true
              /\ allChars notAt d2 = true).
Proof.
  intro email. unfold emailRegexTest. split.
  - intro H.
    destruct (matchAddress_sound email false H)
      as (N & l & d1 & d2 & E & L & D1 & D2 & A0 & A1 & A2).
    split; [exact N |]. exists l, d1, d2. repeat split; auto.
  - intros (N & l & d1 & d2 & E & L & D1 & D2 & A0 & A1 & A2).
    subst email.
    apply (matchAddress_complete l d1 d2 false N A0 A1 A2 D1 D2).
    now right.
Qed.

Example address_test_samples :
  map emailRegexTest
    ["a@b.c"; "a@b"; "@b.c"; "a@.c"; "a@b."; "a b@c.d"; "a@b@c.d";
     "first.last@mail.example.com"; "a@..x"]
  = [true; false; false; false; false; false; false; true; true].
Proof. vm_compute. reflexivity. Qed.

(** X13.  [validateEmailAddresses] accepts a list exactly when every
    address passes the test, so the empty list is accepted.  An accepted
    address is one the tracking URLs can carry: read back from the path
    of the pixel URL built for it, it is the same address. *)
Theorem validated_addresses_round_trip :
  forall (config : EnvironmentConfig) (emails : list string)
         (trackingId : string),
    validateEmailAddresses [] = true
    /\ (validateEmailAddresses emails = true
        <-> forall e, In e emails -> emailRegexTest e = true)
    /\ (validateEmailAddresses emails = true ->
        plainSegment trackingId = true ->
        forall e, In e emails ->
          option_map parsePixelRequest
            (requestPath (APP_URL config)
               (trackingPixelUrl config trackingId e))
          = Some (Params (trackingId, e))).
Proof.
  intros config emails trackingId.
  split; [reflexivity |]. split; [apply forallb_forall |].
  intros V P e I. unfold validateEmailAddresses in V.
  rewrite forallb_forall in V. specialize (V e I).
  assert (T : truthy e = true).
  { destruct e; [discriminate V | reflexivity]. }
  destruct (plainSegment_spec _ P) as (_ & At & _).
  unfold trackingPixelUrl. rewrite requestPath_built.
  - cbn [option_map]. now rewrite parse_pixel_path.
  - apply built_path_queryFree;
      [reflexivity | exact At
      | apply pathChar_queryFree, encode_pathChars].
Qed.

Lemma validated_addresses_round_trip_witness :
  option_map parsePixelRequest
    (requestPath (APP_URL Sample.config)
       (trackingPixelUrl Sample.config "64b7f0c2a10" "bob@example.com"))
  = Some (Params ("64b7f0c2a10", "bob@example.com")).
Proof.
  refine (proj2 (proj2 (validated_addresses_round_trip Sample.config
                          ["alice@example.com"; "bob@example.com"]
                          "64b7f0c2a10"))
            _ _ "bob@example.com" _).
  - vm_compute. reflexivity.
  - vm_compute. reflexivity.
  - right. left. reflexivity.
Defined.

(** ** The email routes *)

(** X14.  [GET /:id] answers with a record only if that record is in the
    collection, has the requested id and belongs to the requesting user;
    when the user owns no record with that id the answer is 404, whoever
    else may own one.  The request changes nothing. *)
Theorem get_email_is_owner_only :
  forall (user : IUser) (id : string) (w : World),
    snd (getEmail user id w) = w
    /\ (forall e : Email,
          fst (getEmail user id w) = Returned (EmailData e) ->
          In e (emails w) /\ email_id e = id
          /\ email_userId e = user_id user)
    /\ ((forall e : Email,
           In e (emails w) ->
           ~ (email_id e = id /\ email_userId e = user_id user)) <->
        fst (getEmail user id w) = Returned EmailNotFound).
Proof.
  intros user id w. unfold getEmail, bind, get_world, ret.
  destruct (find (ownedEmail user id) (emails w)) as [e|] eqn:F; cbn.
  - apply find_some in F as [I O]. unfold ownedEmail in O.
    apply andb_true_iff in O as [O1 O2].
    apply String.eqb_eq in O1, O2.
    split; [reflexivity |]. split.
    + intros e' H. injection H as <-. auto.
    + split; [| discriminate]. intro H. exfalso. exact (H e I (conj O1 O2)).
  - split; [reflexivity |]. split; [discriminate |].
    split; [reflexivity |]. intros _ e I [O1 O2].
    pose proof (find_none _ _ F e I) as N. unfold ownedEmail in N.
    apply String.eqb_eq in O1, O2. now rewrite O1, O2 in N.
Qed.

Lemma removeFirst_split (p : Email -> bool) (l : list Email) (e : Email) :
  find p l = Some e ->
  exists pre post : list Email,
    l = (pre ++ e :: post)%list
    /\ removeFirst p l = (pre ++ post)%list
    /\ forallb (fun x => negb (p x)) pre = true.
Proof.
  induction l as [|x l IH]; [discriminate |].
  cbn [find removeFirst]. destruct (p x) eqn:P.
  - intro H. injection H as <-. exists [], l. repeat split.
  - intro H. destruct (IH H) as (pre & post & E & R & N).
    exists (x :: pre), post. cbn. rewrite P, N, <- E, <- R. repeat split.
Qed.

Lemma find_none_forallb (p : Email -> bool) (l : list Email) :
  forallb (fun x => negb (p x)) l = true -> find p l = None.
Proof.
  induction l as [|x l IH]; [reflexivity |]. cbn.
  intro H. apply andb_true_iff in H as [N R].
  apply negb_true_iff in N. now rewrite N, IH.
Qed.

Lemma find_app_none (p : Email -> bool) (a b : list Email) :
  find p a = None -> find p (a ++ b)%list = find p b.
Proof.
  induction a as [|x a IH]; [reflexivity |]. cbn.
  destruct (p x); [discriminate | exact IH].
Qed.

Lemma deleteEmail_runs (user : IUser) (id : string) (w : World) :
  deleteEmail user id w
  = match find (ownedEmail user id) (emails w) with
    | Some _ =>
        (Returned EmailDeleted,
         with_emails (removeFirst (ownedEmail user id) (emails w)) w)
    | None => (Returned EmailNotFound, w)
    end.
Proof.
  unfold deleteEmail, bind, get_world, modify, ret.
  destruct (find (ownedEmail user id) (emails w)); reflexivity.
Qed.

(** X15.  [DELETE /:id] removes the first record that has the requested
    id and belongs to the requesting user, and nothing else: the records
    before and after it stay, in their order, and so do all tracking
    rows.  When the user owns no such record the answer is 404 and the
    world is untouched. *)
Theorem delete_email_removes_one :
  forall (user : IUser) (id : string) (w : World),
    let r := deleteEmail user id w in
    events (snd r) = events w
    /\ ((fst r = Returned EmailDeleted
         /\ exists (pre post : list Email) (e : Email),
              emails w = (pre ++ e :: post)%list
              /\ emails (snd r) = (pre ++ post)%list
              /\ ownedEmail user id e = true
              /\ forallb (fun x => negb (ownedEmail user id x)) pre = true)
        \/ (fst r = Returned EmailNotFound /\ snd r = w
            /\ find (ownedEmail user id) (emails w) = None)).
Proof.
  intros user id w. cbv zeta. rewrite deleteEmail_runs.
  destruct (find (ownedEmail user id) (emails w)) as [e|] eqn:F; cbn.
  - split; [reflexivity |]. left. split; [reflexivity |].
    destruct (removeFirst_split _ _ _ F) as (pre & post & E & R & N).
    exists pre, post, e. apply find_some in F as [_ O]. auto.
  - split; [reflexivity |]. right. auto.
Qed.

Lemma NoDup_map_middle {A B} (f : A -> B) (pre post : list A) (e x : A) :
  NoDup (map f (pre ++ e :: post)) ->
  In x (pre ++ post)%list -> f x <> f e.
Proof.
  rewrite map_app. cbn [map]. intros N I E.
  apply NoDup_remove_2 in N. apply N.
  rewrite <- map_app, <- E. now apply in_map.
Qed.

(** X16.  Record ids being unique, a deleted email is gone: asking for it
    again gives 404, while every request for another id is answered as
    before the deletion. *)
Theorem deleted_email_is_gone :
  forall (user : IUser) (id : string) (w : World),
    NoDup (map email_id (emails w)) ->
    fst (deleteEmail user id w) = Returned EmailDeleted ->
    let w' := snd (deleteEmail user id w) in
    fst (getEmail user id w') = Returned EmailNotFound
    /\ forall (other : IUser) (id' : string),
         id' <> id ->
         fst (getEmail other id' w') = fst (getEmail other id' w).
Proof.
  intros user id w U D w'. unfold w'. rewrite deleteEmail_runs in *.
  destruct (find (ownedEmail user id) (emails w)) as [e|] eqn:F;
    [| discriminate D].
  destruct (removeFirst_split _ _ _ F) as (pre & post & E & R & N).
  assert (E' : emails
                 (snd (Returned EmailDeleted,
                       with_emails
                         (removeFirst (ownedEmail user id) (emails w)) w))
               = (pre ++ post)%list) by exact R.
  apply find_some in F as [_ O]. unfold ownedEmail in O.
  apply andb_true_iff in O as [O1 O2]. apply String.eqb_eq in O1.
  unfold getEmail, bind, get_world, ret. split.
  - rewrite E'.
    destruct (find (ownedEmail user id) (pre ++ post)%list) as [x|] eqn:F;
      [| reflexivity].
    exfalso. apply find_some in F as [I X]. unfold ownedEmail in X.
    apply andb_true_iff in X as [X1 _]. apply String.eqb_eq in X1.
    rewrite E in U.
    apply (NoDup_map_middle email_id pre post e x U I). congruence.
  - intros other id' NE. rewrite E', E.
    assert (S : forall l : list Email,
              find (ownedEmail other id') (e :: l)
              = find (ownedEmail other id') l).
    { intro l. cbn [find]. unfold ownedEmail at 1.
      replace (String.eqb (email_id e) id') with false; [reflexivity |].
      symmetry. apply String.eqb_neq. congruence. }
    destruct (find (ownedEmail other id') pre) as [x|] eqn:F.
    + assert (G : forall l, find (ownedEmail other id') (pre ++ l)%list
                            = Some x).
      { intro l. clear - F. induction pre as [|y pre IH];
          [discriminate |]. cbn in *.
        destruct (ownedEmail other id' y); auto. }
      now rewrite !G.
    + rewrite (find_app_none _ pre post F),
        (find_app_none _ pre (e :: post) F), S.
      destruct (find (ownedEmail other id') post); reflexivity.
Qed.

Lemma deleted_email_is_gone_witness :
  fst (getEmail Sample.user "64b7f0c2a11"
         (snd (deleteEmail Sample.user "64b7f0c2a11" Fixture.twoUsers)))
  = Returned EmailNotFound.
Proof.
  refine (proj1 (deleted_email_is_gone Sample.user "64b7f0c2a11"
                   Fixture.twoUsers _ _)).
  - vm_compute. repeat constructor; cbn; intuition discriminate.
  - vm_compute. reflexivity.
Defined.

Lemma find_unique_removed (p q : Email -> bool) (key : Email -> string)
    (pre post : list Email) (e : Email) :
  NoDup (map key (pre ++ e :: post)) ->
  (forall x, q x = true -> key x = key e) ->
  find q (pre ++ post)%list = None.
Proof.
  intros U K.
  destruct (find q (pre ++ post)%list) as [x|] eqn:F; [| reflexivity].
  exfalso. apply find_some in F as [I Q].
  exact (NoDup_map_middle key pre post e x U I (K x Q)).
Qed.

(** X17.  Tracking ids being unique, the beacon and the links of a
    deleted email are inert: a hit that reaches the pixel handler with
    its tracking id still gets the image, and a click that reaches the
    click handler is still redirected, but neither writes a row.  The
    rows written before the deletion stay in the collection. *)
Theorem deleted_email_tracking_inert :
  forall (config : EnvironmentConfig) (user : IUser) (id : string)
         (w : World) (e : Email) (req : RequestMeta),
    NoDup (map email_trackingId (emails w)) ->
    find (ownedEmail user id) (emails w) = Some e ->
    let w' := snd (deleteEmail user id w) in
    events w' = events w
    /\ (forall recipient : string,
          truthy (email_trackingId e) = true ->
          pixelHandler config (email_trackingId e) recipient req w'
          = (Returned pixelResponse, w'))
    /\ (forall url recipient : string,
          clickHandler (email_trackingId e) url recipient req w'
          = (Returned (Redirect url), w')).
Proof.
  intros config user id w e req U F w'.
  destruct (removeFirst_split _ _ _ F) as (pre & post & E & R & N).
  assert (W : w' = with_emails (pre ++ post)%list w).
  { unfold w'. rewrite deleteEmail_runs, F. cbn [snd]. now rewrite R. }
  assert (E' : emails w' = (pre ++ post)%list) by now rewrite W.
  assert (Ev : events w' = events w) by now rewrite W.
  rewrite E in U.
  assert (K : find (fun x => String.eqb (email_trackingId x)
                               (email_trackingId e)) (emails w') = None).
  { rewrite E'.
    apply (find_unique_removed (ownedEmail user id) _ email_trackingId
             pre post e U).
    intros x Q. now apply String.eqb_eq in Q. }
  split; [exact Ev |]. split.
  - intros recipient T. now apply pixelHandler_unknown.
  - intros url recipient. rewrite clickHandler_runs. now rewrite K.
Qed.

Lemma deleted_email_tracking_inert_witness :
  pixelHandler Sample.config Sample.sentTrackingId "alice@example.com"
    Sample.browser
    (snd (deleteEmail Sample.user "64b7f0c2a11"
            (at_time 16000 Fixture.twoUsers)))
  = (Returned pixelResponse,
     snd (deleteEmail Sample.user "64b7f0c2a11"
            (at_time 16000 Fixture.twoUsers))).
Proof.
  refine (proj1 (proj2 (deleted_email_tracking_inert Sample.config
                          Sample.user "64b7f0c2a11"
                          (at_time 16000 Fixture.twoUsers) Sample.sentEmail
                          Sample.browser _ _))
            "alice@example.com" _).
  - vm_compute. repeat constructor; cbn; intuition discriminate.
  - vm_compute. reflexivity.
  - vm_compute. reflexivity.
Defined.

Lemma insertNewestFirst_perm (e : Email) (l : list Email) :
  Permutation (insertNewestFirst e l) (e :: l).
Proof.
  induction l as [|x l IH]; cbn; [reflexivity |].
  destruct (sendTimestamp x <=? sendTimestamp e)%Z; [reflexivity |].
  rewrite IH. apply perm_swap.
Qed.

Lemma sortNewestFirst_perm (l : list Email) :
  Permutation (sortNewestFirst l) l.
Proof.
  induction l as [|x l IH]; cbn; [reflexivity |].
  fold (sortNewestFirst l). rewrite insertNewestFirst_perm. now rewrite IH.
Qed.

Lemma insertNewestFirst_sorted (e : Email) (l : list Email) :
  Sorted newerFirst l -> Sorted newerFirst (insertNewestFirst e l).
Proof.
  induction l as [|x l IH]; intro S; cbn.
  - repeat constructor.
  - destruct (sendTimestamp x <=? sendTimestamp e)%Z eqn:C.
    + apply Z.leb_le in C. constructor; [exact S |]. now constructor.
    + apply Z.leb_gt in C. inversion S as [|? ? S' H]; subst.
      constructor; [now apply IH |].
      destruct l as [|y l]; cbn.
      * constructor. unfold newerFirst. lia.
      * destruct (sendTimestamp y <=? sendTimestamp e)%Z.
        -- constructor. unfold newerFirst. lia.
        -- inversion H; subst. now constructor.
Qed.

Lemma sortNewestFirst_sorted (l : list Email) :
  Sorted newerFirst (sortNewestFirst l).
Proof.
  induction l as [|x l IH]; cbn; [constructor |].
  now apply insertNewestFirst_sorted.
Qed.

(** X18.  [GET /] lists exactly the records of the requesting user, each
    as often as it is stored, from the newest send to the oldest; no
    record of another user appears.  The request changes nothing. *)
Theorem list_emails_is_owner_only :
  forall (user : IUser) (w : World),
    exists l : list Email,
      listEmails user w = (Returned (EmailList l), w)
      /\ Permutation l
           (filter (fun e => String.eqb (email_userId e) (user_id user))
                   (emails w))
      /\ Sorted newerFirst l
      /\ (forall e : Email,
            In e l <->
            In e (emails w) /\ email_userId e = user_id user).
Proof.
  intros user w. unfold listEmails, bind, get_world, ret.
  eexists. split; [reflexivity |].
  split; [apply sortNewestFirst_perm |].
  split; [apply sortNewestFirst_sorted |].
  intro e. split.
  - intro I. apply (Permutation_in _ (sortNewestFirst_perm _)) in I.
    apply filter_In in I as [I O]. now apply String.eqb_eq in O.
  - intros [I O].
    apply (Permutation_in _ (Permutation_sym (sortNewestFirst_perm _))).
    apply filter_In. split; [exact I | now apply String.eqb_eq].
Qed.

(** ** Per-recipient analytics *)

Lemma filter_length_bound {A} (p : A -> bool) (l : list A) :
  (List.length (filter p l) <= List.length l)%nat.
Proof.
  induction l as [|x l IH]; cbn; [lia |]. destruct (p x); cbn; lia.
Qed.

Lemma filter_twice {A} (p q : A -> bool) (l : list A) :
  filter p (filter q l) = filter (fun x => q x && p x) l.
Proof.
  induction l as [|x l IH]; cbn; [reflexivity |].
  destruct (q x); cbn; [destruct (p x) |]; now rewrite IH.
Qed.

Lemma count_after_insert (p : EmailTracking -> bool) (ev : EmailTracking)
    (l : list EmailTracking) :
  List.length (filter p (insertOldestFirst ev l))
  = List.length (filter p (ev :: l)).
Proof.
  induction l as [|x l IH]; [reflexivity |]. cbn [insertOldestFirst].
  destruct (meta_timestamp ev <=? meta_timestamp x)%Z; [reflexivity |].
  cbn [filter] in *. destruct (p x), (p ev); cbn [List.length] in *; lia.
Qed.

Lemma count_after_sort (p : EmailTracking -> bool)
    (l : list EmailTracking) :
  List.length (filter p (fold_right insertOldestFirst [] l))
  = List.length (filter p l).
Proof.
  induction l as [|x l IH]; [reflexivity |]. cbn [fold_right].
  rewrite count_after_insert. cbn [filter].
  destruct (p x); cbn [List.length]; now rewrite IH.
Qed.

Lemma recipientStat_agrees (emailId : string) (w : World)
    (recipient : string) :
  statAgrees emailId w (recipientStat (findEventsOf emailId w) recipient).
Proof.
  unfold statAgrees, recipientStat, storedRows, findEventsOf.
  cbn [openCount clickCount opened clicked stat_email].
  rewrite !filter_twice, !count_after_sort, !filter_twice.
  split; [| split; [| split]]; try apply Nat.ltb_lt.
  all: f_equal; apply filter_ext; intro ev; now rewrite andb_assoc.
Qed.

(** X19.  The per-recipient report is given to the owner of the email
    only; for anyone else, and for an unknown id, the answer is 404.  It
    has one entry for every address of the to, cc and bcc lists, in that
    order; the counts of an entry are the numbers of stored open and
    click rows of that email and address, an entry is marked opened or
    clicked exactly when its count is positive, and the numbers of
    recipients who opened or clicked do not exceed the number of
    recipients.  The request changes nothing. *)
Theorem recipient_report_counts_rows :
  forall (user : IUser) (emailId : string) (w : World),
    snd (recipientAnalytics user emailId w) = w
    /\ (find (ownedEmail user emailId) (emails w) = None ->
        fst (recipientAnalytics user emailId w) = Returned None)
    /\ (forall email : Email,
          find (ownedEmail user emailId) (emails w) = Some email ->
          exists report : RecipientsReport,
            fst (recipientAnalytics user emailId w)
            = Returned (Some report)
            /\ map stat_email (recipientStats report)
               = (email_to email ++ email_cc email ++ email_bcc email)%list
            /\ totalRecipients report
               = List.length (recipientStats report)
            /\ (openedCount report <= totalRecipients report)%nat
            /\ (clickedCount report <= totalRecipients report)%nat
            /\ Forall (statAgrees emailId w) (recipientStats report)).
Proof.
  intros user emailId w. unfold recipientAnalytics, bind, get_world, ret.
  destruct (find (ownedEmail user emailId) (emails w)) as [email|];
    cbn [fst snd].
  - split; [reflexivity |]. split; [discriminate |].
    intros e H. injection H as <-. eexists. split; [reflexivity |].
    cbn [recipientStats totalRecipients openedCount clickedCount].
    split; [| split; [| split; [| split]]].
    + rewrite map_map. cbn [recipientStat stat_email]. apply map_id.
    + now rewrite List.length_map.
    + rewrite <- (List.length_map (recipientStat (findEventsOf emailId w))).
      apply filter_length_bound.
    + rewrite <- (List.length_map (recipientStat (findEventsOf emailId w))).
      apply filter_length_bound.
    + apply Forall_forall. intros st I. apply in_map_iff in I as (r & <- & _).
      apply recipientStat_agrees.
  - split; [reflexivity |]. split; [reflexivity | discriminate].
Qed.




(** ** The beacon in an HTML body *)

Lemma expandReplacement_plain (matched before after r : string) :
  allChars notDollar r = true ->
  expandReplacement matched before after r = r.
Proof.
  induction r as [|c r IH]; [reflexivity |].
  cbn [allChars]. intro H. apply andb_true_iff in H as [C R].
  unfold notDollar in C. apply negb_true_iff in C.
  cbn [expandReplacement]. rewrite C. now rewrite (IH R).
Qed.

Lemma stripPrefix_some (p s rest : string) :
  stripPrefix p s = Some rest -> s = p ++ rest.
Proof.
  revert s. induction p as [|a p IH]; intros s H.
  - cbn in H. now injection H.
  - destruct s as [|b s]; [discriminate |]. cbn in H.
    destruct (Ascii.eqb a b) eqn:E; [| discriminate].
    apply Ascii.eqb_eq in E. subst b. cbn. now rewrite (IH s H).
Qed.

Lemma splitAtFirst_some (pat s before after : string) :
  splitAtFirst pat s = Some (before, after) ->
  s = before ++ pat ++ after.
Proof.
  revert before. induction s as [|c s IH]; intros before H.
  - destruct pat; cbn in H; [| discriminate H].
    injection H as <- <-. reflexivity.
  - cbn [splitAtFirst] in H.
    destruct (stripPrefix pat (String c s)) as [rest|] eqn:P.
    + injection H as <- <-. exact (stripPrefix_some _ _ _ P).
    + destruct (splitAtFirst pat s) as [[b a]|]; [| discriminate].
      injection H as <- <-. cbn. now rewrite (IH b eq_refl).
Qed.

Lemma splitAtFirst_first (pat s before after : string) :
  splitAtFirst pat s = Some (before, after) ->
  forall b a : string,
    s = b ++ pat ++ a -> (String.length before <= String.length b)%nat.
Proof.
  revert before. induction s as [|c s IH]; intros before H b a E.
  - destruct pat; cbn in H; [| discriminate H].
    injection H as <- <-. cbn. lia.
  - cbn [splitAtFirst] in H.
    destruct (stripPrefix pat (String c s)) as [rest|] eqn:P.
    + injection H as <- <-. cbn. lia.
    + destruct (splitAtFirst pat s) as [[b0 a0]|] eqn:S; [| discriminate].
      injection H as <- <-. destruct b as [|d b].
      * cbn [append] in E. rewrite E, stripPrefix_append in P.
        discriminate P.
      * cbn [append] in E. injection E as _ E. cbn [String.length].
        specialize (IH b0 eq_refl b a E). lia.
Qed.

Lemma encodeByte_notDollar (c : ascii) :
  allChars notDollar (encodeByte c) = true.
Proof. each_byte c. Qed.

Lemma encode_notDollar (s : string) :
  allChars notDollar (encodeURIComponent s) = true.
Proof.
  induction s as [|c s IH]; [reflexivity |].
  cbn [encodeURIComponent].
  now rewrite allChars_append, encodeByte_notDollar, IH.
Qed.

(** X21.  [addEmailTrackingForRecipient] leaves a plain-text body as it
    is.  In an HTML body it puts the invisible image of the recipient's
    pixel URL exactly once: immediately before the first closing body
    tag, the rest of the document unchanged, or at the very end when
    there is no such tag.  (The application URL and the tracking id are
    taken free of dollar signs, which the replacement would expand.) *)
Theorem beacon_inserted_once :
  forall (config : EnvironmentConfig)
         (content trackingId recipientEmail : string),
    allChars notDollar (APP_URL config) = true ->
    allChars notDollar trackingId = true ->
    let pixel :=
      trackingPixel (trackingPixelUrl config trackingId recipientEmail) in
    addEmailTrackingForRecipient config content trackingId recipientEmail
      false = content
    /\ (splitAtFirst closingBody content = None ->
        addEmailTrackingForRecipient config content trackingId
          recipientEmail true = content ++ pixel)
    /\ (forall before after : string,
          splitAtFirst closingBody content = Some (before, after) ->
          content = before ++ closingBody ++ after
          /\ (forall b a : string,
                content = b ++ closingBody ++ a ->
                (String.length before <= String.length b)%nat)
          /\ addEmailTrackingForRecipient config content trackingId
               recipientEmail true
             = before ++ pixel ++ closingBody ++ after).
Proof.
  intros config content trackingId recipientEmail A T pixel.
  split; [reflexivity |]. split.
  - intro N. unfold addEmailTrackingForRecipient. now rewrite N.
  - intros before after S. split; [now apply splitAtFirst_some |].
    split; [exact (splitAtFirst_first _ _ _ _ S) |].
    unfold addEmailTrackingForRecipient, replaceFirst. rewrite S.
    cbn [isSome].
    rewrite expandReplacement_plain.
    + fold (trackingPixelUrl config trackingId recipientEmail).
      fold pixel. now rewrite append_assoc.
    + unfold trackingPixel.
      rewrite !allChars_append, A, T, encode_notDollar. reflexivity.
Qed.

Lemma beacon_inserted_once_witness :
  addEmailTrackingForRecipient Sample.config
    "<html><body><p>Hi</p></body></html>" "64b7f0c2a10"
    "alice@example.com" true
  = "<html><body><p>Hi</p>"
      ++ trackingPixel
           (trackingPixelUrl Sample.config "64b7f0c2a10"
              "alice@example.com")
      ++ closingBody ++ "</html>".
Proof.
  refine (proj2 (proj2 (proj2 (proj2 (beacon_inserted_once Sample.config
                     "<html><body><p>Hi</p></body></html>" "64b7f0c2a10"
                     "alice@example.com" _ _))
                   "<html><body><p>Hi</p>" "</html>" _))).
  - vm_compute. reflexivity.
  - vm_compute. reflexivity.
  - vm_compute. reflexivity.
Defined.

(** ** The two older entry points *)

Lemma sendEmailLegacy_transport (user : IUser)
    (emailData : SendEmailRequest) :
  sendEmailLegacy user emailData
  = transportOf (provider emailData) user emailData.
Proof. unfold sendEmailLegacy, transportOf. now destruct (provider emailData). Qed.

(** X22.  [sendEmail] always returns a message id, and never an empty
    one, after minting one tracking id: when no recipient's send
    succeeded the id is the placeholder made of the clock reading, so the
    caller is not told that nothing was sent. *)
Theorem sendEmail_always_returns :
  forall (config : EnvironmentConfig) (user : IUser)
         (emailData : SendEmailRequest) (w : World),
    let outcomes :=
      recipientOutcomes config user emailData (objectIds w (mintedIds w))
        (mint_id w) in
    exists (r : SendResult) (w' : World),
      sendEmail config user emailData w = (Returned r, w')
      /\ messageId r <> EmptyString
      /\ mintedIds w' = S (mintedIds w)
      /\ (successIds outcomes = [] ->
          messageId r = "bulk_send_" ++ string_of_Z (now w)).
Proof.
  intros config user emailData w outcomes.
  unfold sendEmail. unfold bind at 1. unfold newObjectId at 1.
  unfold bind at 1. rewrite sendEmailWithTracking_runs.
  pose proof (runRecipients_frame config user emailData
                (objectIds w (mintedIds w)) (allRecipients emailData)
                (mint_id w)) as (F1 & _ & _ & F4 & _).
  unfold outcomes, recipientOutcomes.
  destruct (runRecipients config user emailData
              (objectIds w (mintedIds w)) (allRecipients emailData)
              (mint_id w)) as [os w1].
  cbn [fst snd now mintedIds mint_id] in *.
  do 2 eexists. split; [reflexivity |]. cbn [messageId result_messageId].
  rewrite F1. split; [| split; [exact F4 |]].
  - apply truthy_true, or_else_truthy. reflexivity.
  - intros ->. reflexivity.
Qed.

(** X23.  [sendEmailLegacy] hands the request to the transport of its
    provider once and as it is, with all its recipients in one message,
    and lets the failure of the transport through: without a connection
    and token for the provider's account the call fails. *)
Theorem legacy_send_is_one_call :
  forall (user : IUser) (emailData : SendEmailRequest) (w : World),
    let r := sendEmailLegacy user emailData w in
    transportCalls (snd r)
    = (transportCalls w ++ [(provider emailData, emailData)])%list
    /\ (connectedWithToken (accountOf (provider emailData)) user = false ->
        isFailure (fst r) = true).
Proof.
  intros user emailData w. cbv zeta. rewrite sendEmailLegacy_transport.
  split; [apply transport_call_logged |].
  unfold connectedWithToken, transportOf, accountOf.
  destruct (provider emailData);
    unfold sendGmailEmail, sendOutlookEmail, bind, tryCatch, modify;
    destruct (find _ (connectedProviders user)) as [conn|];
    intro H; try rewrite H; reflexivity.
Qed.

(** ** Hits on the built URLs *)

Lemma pixel_url_path (config : EnvironmentConfig)
    (trackingId recipient : string) :
  plainSegment trackingId = true -> truthy recipient = true ->
  exists path : string,
    requestPath (APP_URL config) (trackingPixelUrl config trackingId recipient)
    = Some path
    /\ parsePixelRequest path = Params (trackingId, recipient).
Proof.
  intros P T. destruct (plainSegment_spec _ P) as (_ & At & _).
  exists ("/api/tracking/pixel/" ++ trackingId ++ "/"
            ++ encodeURIComponent recipient).
  split; [| now apply parse_pixel_path].
  unfold trackingPixelUrl. apply requestPath_built.
  apply built_path_queryFree;
    [reflexivity | exact At | apply pathChar_queryFree, encode_pathChars].
Qed.

Lemma click_url_path (config : EnvironmentConfig)
    (trackingId recipient url : string) :
  plainSegment trackingId = true -> truthy recipient = true ->
  truthy url = true ->
  exists path : string,
    requestPath (APP_URL config) (trackingUrl config trackingId recipient url)
    = Some path
    /\ parseClickRequest path = Params (trackingId, url, recipient).
Proof.
  intros P T U. destruct (plainSegment_spec _ P) as (_ & At & _).
  exists ("/api/tracking/click/" ++ trackingId ++ "/"
            ++ encodeURIComponent url ++ "/"
            ++ encodeURIComponent recipient).
  split; [| now apply parse_click_path].
  unfold trackingUrl. apply requestPath_built.
  apply built_path_queryFree; [reflexivity | exact At |].
  rewrite !allChars_append.
  now rewrite (pathChar_queryFree _ (encode_pathChars url)),
    (pathChar_queryFree _ (encode_pathChars recipient)).
Qed.

(** X24.  Hits on the URLs built for a recipient are attributed to that
    recipient.  For a stored email, the path of the pixel URL of a
    recipient gives the pixel route the tracking id and that recipient,
    and the path of the tracking URL of a link gives the click route, in
    addition, the original link.  Given these, the pixel handler, once
    the window has passed, writes one [open] row that names the email,
    its tracking id and that recipient, and the click handler writes one
    [click] row that names the original link as well, and redirects to
    that link: both on condition that the row passes the validators of
    the schema; a row that fails them is not written, and the request
    ends in an error. *)
Theorem built_urls_attribute_hits :
  forall (config : EnvironmentConfig) (w : World) (req : RequestMeta)
         (email : Email) (recipient url : string),
    let trackingId := email_trackingId email in
    find (fun e => String.eqb (email_trackingId e) trackingId) (emails w)
    = Some email ->
    plainSegment trackingId = true ->
    recipient <> EmptyString -> url <> EmptyString ->
    let openRow :=
      newTrackingEvent trackingId email open None recipient req (now w) in
    let clickRow :=
      newTrackingEvent trackingId email click (Some url) recipient req
        (now w) in
    (exists path : string,
       requestPath (APP_URL config)
         (trackingPixelUrl config trackingId recipient) = Some path
       /\ parsePixelRequest path = Params (trackingId, recipient))
    /\ ((TRACKING_COOLDOWN_SECONDS config * 1000
         <= now w - sendTimestamp email)%Z ->
        let r := pixelHandler config trackingId recipient req w in
        if validTrackingEvent (urlParses w) openRow
        then r = (Returned pixelResponse, save_event openRow w)
        else isFailure (fst r) = true /\ snd r = w)
    /\ (exists path : string,
          requestPath (APP_URL config)
            (trackingUrl config trackingId recipient url) = Some path
          /\ parseClickRequest path = Params (trackingId, url, recipient))
    /\ (let r := clickHandler trackingId url recipient req w in
        if validTrackingEvent (urlParses w) clickRow
        then r = (Returned (Redirect url), save_event clickRow w)
        else isFailure (fst r) = true /\ snd r = w).
Proof.
  intros config w req email recipient url trackingId F P R U openRow
    clickRow.
  apply truthy_true in R. apply truthy_true in U.
  destruct (plainSegment_spec _ P) as (T & _).
  split; [exact (pixel_url_path config trackingId recipient P R) |].
  split; [| split;
            [exact (click_url_path config trackingId recipient url P R U) |]].
  - intro L. cbv zeta.
    rewrite (pixelHandler_known config _ _ req w email T F).
    apply Z.ltb_ge in L. rewrite L. fold openRow.
    destruct (validTrackingEvent (urlParses w) openRow); cbn; auto.
  - cbv zeta. rewrite clickHandler_runs, F. cbv zeta. fold clickRow.
    destruct (validTrackingEvent (urlParses w) clickRow); cbn; auto.
Qed.

Lemma built_urls_attribute_hits_witness :
  clickHandler (email_trackingId Sample.sentEmail)
    "https://example.com/a?b=1&c=2" "bob@example.com" Sample.browser
    (at_time 16000 Sample.sentWorld)
  = (Returned (Redirect "https://example.com/a?b=1&c=2"),
     save_event
       (newTrackingEvent (email_trackingId Sample.sentEmail)
          Sample.sentEmail click (Some "https://example.com/a?b=1&c=2")
          "bob@example.com" Sample.browser 16000)
       (at_time 16000 Sample.sentWorld)).
Proof.
  assert (F : find (fun e => String.eqb (email_trackingId e)
                                 (email_trackingId Sample.sentEmail))
                 (emails (at_time 16000 Sample.sentWorld))
               = Some Sample.sentEmail) by (vm_compute; reflexivity).
  assert (P : plainSegment (email_trackingId Sample.sentEmail) = true)
    by (vm_compute; reflexivity).
  pose proof (proj2 (proj2 (proj2
                (built_urls_attribute_hits Sample.config
                   (at_time 16000 Sample.sentWorld) Sample.browser
                   Sample.sentEmail "bob@example.com"
                   "https://example.com/a?b=1&c=2" F P
                   ltac:(discriminate) ltac:(discriminate))))) as H.
  cbv zeta in H.
  replace (validTrackingEvent _ _) with true in H
    by (vm_compute; reflexivity).
  exact H.
Defined.

Lemma pixelHandler_answer (config : EnvironmentConfig)
    (trackingId recipient : string) (req : RequestMeta) (w : World) :
  truthy trackingId = true ->
  let r := pixelHandler config trackingId recipient req w in
  (fst r = Returned pixelResponse
   \/ fst r = Threw (ValidationError "EmailTracking"))
  /\ emails (snd r) = emails w
  /\ (snd r = w \/ exists ev, snd r = save_event ev w).
Proof.
  intro T.
  destruct (find (fun e => String.eqb (email_trackingId e) trackingId)
                 (emails w)) as [email|] eqn:F.
  - cbv zeta. rewrite (pixelHandler_known config _ _ req w email T F).
    destruct (_ <? _)%Z; [cbn; auto |].
    destruct (validTrackingEvent _ _); cbn; repeat split; eauto.
  - cbv zeta. rewrite (pixelHandler_unknown config _ _ req w T F).
    cbn. auto.
Qed.

Lemma clickHandler_answer (trackingId url recipient : string)
    (req : RequestMeta) (w : World) :
  let r := clickHandler trackingId url recipient req w in
  (fst r = Returned (Redirect url)
   \/ fst r = Threw (ValidationError "EmailTracking"))
  /\ emails (snd r) = emails w
  /\ (snd r = w \/ exists ev, snd r = save_event ev w).
Proof.
  cbv zeta. rewrite clickHandler_runs.
  destruct (find _ (emails w)) as [email|]; [| cbn; auto].
  cbv zeta. destruct (validTrackingEvent _ _); cbn; repeat split; eauto.
Qed.

(** X25.  The two guards of the tracking handlers never fire on a routed
    request: the pixel handler's test for a missing tracking id and the
    click route's validation of its three parameters always pass,
    because a route parameter is never empty.  So the tracking router
    never gives either of their 400 answers. *)
Theorem tracking_guards_never_fire :
  forall (config : EnvironmentConfig) (path : string) (req : RequestMeta)
         (w : World),
    (forall trackingId url recipient : string,
       parseClickRequest path = Params (trackingId, url, recipient) ->
       validateClickTracking trackingId url recipient = true)
    /\ (forall trackingId recipient : string,
          parsePixelRequest path = Params (trackingId, recipient) ->
          truthy trackingId = true)
    /\ fst (trackingRouter config path req w)
       <> Returned (Json 400 false "Missing or invalid trackingId parameter")
    /\ fst (trackingRouter config path req w)
       <> Returned (Json 400 false "Validation failed").
Proof.
  intros config path req w.
  split; [intros t u r P; now apply (parse_click_valid path) |].
  split; [intros t r P; now apply (parse_pixel_truthy path t r) |].
  destruct (parsePixelRequest path) as [| |[t r]] eqn:P.
  - destruct (parseClickRequest path) as [| |[[t u] r]] eqn:C.
    + unfold trackingRouter. rewrite P, C. split; discriminate.
    + unfold trackingRouter. rewrite P, C. split; discriminate.
    + rewrite (router_click config path req w _ _ _ C).
      destruct (clickHandler_answer t u r req w) as ([-> | ->] & _);
        split; discriminate.
  - unfold trackingRouter. rewrite P. split; discriminate.
  - rewrite (router_pixel config path req w _ _ P).
    destruct (parse_pixel_truthy _ _ _ P) as [T _].
    destruct (pixelHandler_answer config t r req w T) as ([-> | ->] & _);
      split; discriminate.
Qed.

(** X26.  Tracking rows are only ever added: a request to the tracking
    router leaves the emails as they are, keeps every row that was
    stored, in place, and adds at most one row. *)
Theorem tracking_is_append_only :
  forall (config : EnvironmentConfig) (path : string) (req : RequestMeta)
         (w : World),
    let w' := snd (trackingRouter config path req w) in
    emails w' = emails w
    /\ (events w' = events w
        \/ exists ev : EmailTracking, events w' = (events w ++ [ev])%list).
Proof.
  intros config path req w.
  destruct (parsePixelRequest path) as [| |[t r]] eqn:P.
  - destruct (parseClickRequest path) as [| |[[t u] r]] eqn:C.
    + cbv zeta. unfold trackingRouter. rewrite P, C. cbn. auto.
    + cbv zeta. unfold trackingRouter. rewrite P, C. cbn. auto.
    + cbv zeta. rewrite (router_click config path req w _ _ _ C).
      destruct (clickHandler_answer t u r req w)
        as (_ & E & [-> | (ev & ->)]); cbn; eauto.
  - cbv zeta. unfold trackingRouter. rewrite P. cbn. auto.
  - cbv zeta. rewrite (router_pixel config path req w _ _ P).
    destruct (parse_pixel_truthy _ _ _ P) as [T _].
    destruct (pixelHandler_answer config t r req w T)
      as (_ & E & [-> | (ev & ->)]); cbn; eauto.
Qed.

(** ** The two address expressions *)

Lemma splitOn_nonempty (sep : ascii) (s : string) : splitOn sep s <> [].
Proof.
  destruct s as [|c s]; cbn; [discriminate |].
  destruct (Ascii.eqb c sep); [discriminate |].
  destruct (splitOn sep s); discriminate.
Qed.

Lemma splitOn_join (sep : ascii) (s : string) :
  String.concat (String sep EmptyString) (splitOn sep s) = s.
Proof.
  induction s as [|c s IH]; [reflexivity |]. cbn [splitOn].
  pose proof (splitOn_nonempty sep s) as N.
  destruct (Ascii.eqb c sep) eqn:E.
  - apply Ascii.eqb_eq in E. subst c.
    destruct (splitOn sep s) as [|h t]; [congruence |].
    change (String.concat (String sep EmptyString) (EmptyString :: h :: t))
      with (String sep (String.concat (String sep EmptyString) (h :: t))).
    now rewrite IH.
  - destruct (splitOn sep s) as [|h t]; [congruence |].
    rewrite <- IH. destruct t; reflexivity.
Qed.

Lemma concat_snoc (sep : string) (l : list string) (x : string) :
  l <> [] ->
  String.concat sep (l ++ [x])%list = String.concat sep l ++ sep ++ x.
Proof.
  induction l as [|a l IH]; [congruence |]. intros _.
  destruct l as [|b l]; [reflexivity |].
  change (String.concat sep ((a :: b :: l) ++ [x])%list)
    with (a ++ sep ++ String.concat sep ((b :: l) ++ [x])%list).
  rewrite IH by discriminate.
  change (String.concat sep (a :: b :: l))
    with (a ++ sep ++ String.concat sep (b :: l)).
  now rewrite !append_assoc.
Qed.

Lemma wordsTest_chars (s : string) :
  forall afterWord : bool,
    wordsTest afterWord s = true -> allChars addressChar s = true.
Proof.
  induction s as [|c s IH]; intros afterWord H; [reflexivity |].
  cbn [wordsTest allChars] in *. unfold addressChar at 1.
  destruct (isWord c); [cbn; now apply (IH true) |].
  destruct (Ascii.eqb c dot || Ascii.eqb c "-"%char) eqn:E;
    [| discriminate H].
  destruct afterWord; [| discriminate H].
  cbn [orb andb] in *. rewrite E. now apply (IH false).
Qed.

Lemma wordsTest_nonempty (s : string) :
  wordsTest false s = true -> s <> EmptyString.
Proof. destruct s; [discriminate | discriminate]. Qed.

Lemma isWord_addressChar (s : string) :
  allChars isWord s = true -> allChars addressChar s = true.
Proof.
  apply allChars_impl. intros c H. unfold addressChar. now rewrite H.
Qed.

Lemma addressChar_notAt (s : string) :
  allChars addressChar s = true -> allChars notAt s = true.
Proof.
  apply allChars_impl. intro c.
  each_byte c; intro H; (reflexivity || discriminate H).
Qed.

(** A text made of address characters and at signs has no white space. *)
Lemma addressChars_noSpace (s : string) :
  allChars (fun c => addressChar c || Ascii.eqb c atSign) s = true ->
  noSpace s = true.
Proof.
  induction s as [|c s IH]; [reflexivity |].
  cbn [allChars noSpace]. intro H. apply andb_true_iff in H as [C A].
  rewrite (IH A), andb_true_r. clear IH A.
  revert C. each_byte c; try discriminate;
    intros _; destruct s as [|b [|d r]]; reflexivity.
Qed.

Lemma hostTest_parts (host : string) :
  hostTest host = true ->
  exists name last : string,
    host = name ++ String dot last
    /\ name <> EmptyString /\ last <> EmptyString
    /\ allChars addressChar name = true
    /\ allChars addressChar last = true.
Proof.
  unfold hostTest. intro H.
  pose proof (splitOn_join dot host) as J.
  destruct (rev (splitOn dot host)) as [|last [|b before]] eqn:R;
    try discriminate H.
  apply (f_equal (@rev string)) in R. rewrite rev_involutive in R.
  cbn [rev] in R.
  change (rev (last :: b :: before))
    with (rev (b :: before) ++ [last])%list in R.
  rewrite R in J.
  rewrite concat_snoc in J
    by (cbn [rev]; intro E; apply app_eq_nil in E as [_ E]; discriminate E).
  repeat (apply andb_true_iff in H as [H ?]).
  exists (String.concat "." (rev (b :: before))), last.
  split; [now rewrite <- J |].
  split; [now apply wordsTest_nonempty |].
  split; [destruct last; [discriminate | discriminate] |].
  split; [now apply (wordsTest_chars _ false) | now apply isWord_addressChar].
Qed.

(** X27.  The expression the email schema tests a recipient with is the
    stricter of the two address expressions: every address it accepts is
    accepted by the expression of the request validation and of
    [validateEmailAddresses], and it is made of letters, digits,
    underscores, dots, hyphens and one at sign.  The converse fails: an
    address under a top-level domain of four letters, or with a plus sign
    in its local part, passes the request validation and is refused by
    the schema. *)
Theorem schema_addresses_pass_request_test :
  (forall email : string,
     recipientRegexTest email = true ->
     emailRegexTest email = true
     /\ exists name host : string,
          email = name ++ "@" ++ host
          /\ allChars addressChar name = true
          /\ allChars addressChar host = true)
  /\ emailRegexTest "bob@example.info" = true
  /\ recipientRegexTest "bob@example.info" = false
  /\ emailRegexTest "a+b@example.com" = true
  /\ recipientRegexTest "a+b@example.com" = false.
Proof.
  split; [| repeat split].
  intros email H. unfold recipientRegexTest in H.
  pose proof (splitOn_join atSign email) as J.
  destruct (splitOn atSign email) as [|name [|host [|x rest]]];
    try discriminate H.
  apply andb_true_iff in H as [W T].
  cbn [String.concat] in J.
  destruct (hostTest_parts host T) as (d1 & d2 & E & D1 & D2 & A1 & A2).
  pose proof (wordsTest_chars name false W) as A0.
  assert (AH : allChars addressChar host = true).
  { rewrite E. change (String dot d2) with ("." ++ d2).
    now rewrite !allChars_append, A1, A2. }
  split.
  - rewrite <- J, E. unfold emailRegexTest.
    apply matchAddress_complete;
      try (now apply addressChar_notAt);
      [| exact D1 | exact D2 | right; now apply wordsTest_nonempty].
    apply addressChars_noSpace.
    change (String atSign (d1 ++ String dot d2))
      with ("@" ++ (d1 ++ ("." ++ d2))).
    rewrite !allChars_append.
    assert (L : forall s, allChars addressChar s = true ->
                  allChars (fun c => addressChar c || Ascii.eqb c atSign) s
                  = true).
    { intro s0. apply allChars_impl. intros c C. now rewrite C. }
    now rewrite (L name A0), (L d1 A1), (L d2 A2).
  - exists name, host. split; [now rewrite <- J |]. now split.
Qed.
